(** * The wheel builder of poetry: a shallow embedding and its properties

    The development follows [poetry/masonry/builders/wheel.py].  Python text
    ([str]) is a list of Unicode code points, binary data ([bytes]) a list of
    bytes, the builder object and the world it acts on (source tree, target
    directory, console, wall clock) one explicit state threaded through a
    state-and-exception monad. *)

From Stdlib Require Import ZArith NArith Lia Bool String Ascii.
From Stdlib.Strings Require Import Byte.
From stdpp Require Import base option list gmap.

Local Open Scope N_scope.

(** ** Text and bytes *)

(** A Python [str]: the sequence of its code points. *)
Abbreviation pystr := (list N).

(** A Python [bytes] object. *)
Abbreviation bytes := (list byte).

(** An ASCII literal read as text. *)
Definition u (s : string) : pystr :=
  map N_of_ascii (list_ascii_of_string s).

Arguments u : simpl never.

Definition nl : pystr := [10].

Definition byte_of_N (n : N) : byte :=
  default x00 (Byte.of_N (n mod 256)).

(** [s.encode("utf-8")]; [None] is [UnicodeEncodeError] (a lone surrogate). *)
Definition utf8_char (c : N) : option bytes :=
  if c <? 0x80 then Some [byte_of_N c]
  else if c <? 0x800 then
    Some [byte_of_N (0xC0 + c / 64); byte_of_N (0x80 + c mod 64)]
  else if c <? 0x10000 then
    if (0xD800 <=? c) && (c <=? 0xDFFF) then None
    else Some [byte_of_N (0xE0 + c / 4096);
               byte_of_N (0x80 + (c / 64) mod 64);
               byte_of_N (0x80 + c mod 64)]
  else if c <? 0x110000 then
    Some [byte_of_N (0xF0 + c / 262144);
          byte_of_N (0x80 + (c / 4096) mod 64);
          byte_of_N (0x80 + (c / 64) mod 64);
          byte_of_N (0x80 + c mod 64)]
  else None.

Fixpoint encode_utf8 (s : pystr) : option bytes :=
  match s with
  | [] => Some []
  | c :: r =>
      match utf8_char c, encode_utf8 r with
      | Some b, Some br => Some (b ++ br)
      | _, _ => None
      end
  end.

(** [b.decode("ascii")] on bytes known to be ASCII. *)
Definition decode_ascii (b : bytes) : pystr := map Byte.to_N b.

(** [str(n)] / ["{}".format(n)] for a non-negative [int]. *)
Fixpoint digits_fuel (fuel : nat) (n : N) (acc : pystr) : pystr :=
  match fuel with
  | O => acc
  | S f =>
      let acc' := (48 + n mod 10) :: acc in
      if n <? 10 then acc' else digits_fuel f (n / 10) acc'
  end.

Definition str_of_int (n : N) : pystr :=
  digits_fuel (S (N.to_nat (N.log2 n))) n [].

(** [sep.join(parts)]. *)
Fixpoint join (sep : pystr) (parts : list pystr) : pystr :=
  match parts with
  | [] => []
  | [p] => p
  | p :: rest => p ++ sep ++ join sep rest
  end.

(** The text made of the given lines, each ended by a line feed. *)
Definition unlines (ls : list pystr) : pystr :=
  concat (map (fun l => l ++ nl) ls).

(** [s.replace(old, new)] for a one-character [old]. *)
Definition replace_char (old : N) (new : pystr) (s : pystr) : pystr :=
  concat (map (fun c => if c =? old then new else [c]) s).

(** [s.rstrip(ch)] for a one-character argument. *)
Fixpoint rstrip (ch : N) (s : pystr) : pystr :=
  match s with
  | [] => []
  | c :: r =>
      match rstrip ch r with
      | [] => if c =? ch then [] else [c]
      | r' => c :: r'
      end
  end.

(** [s.lower()] on the ASCII letters (what the ABI tags consist of). *)
Definition lower (s : pystr) : pystr :=
  map (fun c => if (65 <=? c) && (c <=? 90) then c + 32 else c) s.

(** ** hashlib.sha256 (FIPS 180-4), on 32-bit words kept in [Z] *)

Module SHA256.
Local Open Scope Z_scope.

Definition w32 (x : Z) : Z := Z.land x 0xFFFFFFFF.
Definition add32 (a b : Z) : Z := w32 (a + b).
Definition rotr (n x : Z) : Z :=
  w32 (Z.lor (Z.shiftr x n) (Z.shiftl x (32 - n))).
Definition shr (n x : Z) : Z := Z.shiftr x n.

Definition Ch (x y z : Z) : Z :=
  Z.lxor (Z.land x y) (Z.land (Z.lxor x 0xFFFFFFFF) z).
Definition Maj (x y z : Z) : Z :=
  Z.lxor (Z.lxor (Z.land x y) (Z.land x z)) (Z.land y z).
Definition Sigma0 (x : Z) : Z :=
  Z.lxor (Z.lxor (rotr 2 x) (rotr 13 x)) (rotr 22 x).
Definition Sigma1 (x : Z) : Z :=
  Z.lxor (Z.lxor (rotr 6 x) (rotr 11 x)) (rotr 25 x).
Definition sigma0 (x : Z) : Z :=
  Z.lxor (Z.lxor (rotr 7 x) (rotr 18 x)) (shr 3 x).
Definition sigma1 (x : Z) : Z :=
  Z.lxor (Z.lxor (rotr 17 x) (rotr 19 x)) (shr 10 x).

(** The constants are given by their definition in the standard: the
    first 32 bits of the fractional parts of the cube roots (for [K]) and
    of the square roots (for [H0]) of the first primes. *)
Definition primes : list Z :=
  [2; 3; 5; 7; 11; 13; 17; 19; 23; 29; 31; 37; 41; 43; 47; 53; 59; 61; 67;
   71; 73; 79; 83; 89; 97; 101; 103; 107; 109; 113; 127; 131; 137; 139; 149;
   151; 157; 163; 167; 173; 179; 181; 191; 193; 197; 199; 211; 223; 227;
   229; 233; 239; 241; 251; 257; 263; 269; 271; 277; 281; 283; 293; 307;
   311].

(** The integer cube root, bit by bit from bit [n - 1] down. *)
Fixpoint cube_root (n : nat) (x acc : Z) : Z :=
  match n with
  | O => acc
  | S k =>
      let c := acc + 2 ^ Z.of_nat k in
      if c * c * c <=? x then cube_root k x c else cube_root k x acc
  end.

Definition K : list Z :=
  Eval vm_compute in
    map (fun p => w32 (cube_root 40 (p * 2 ^ 96) 0)) primes.

Definition H0 : list Z :=
  Eval vm_compute in
    map (fun p => w32 (Z.sqrt (p * 2 ^ 64))) (firstn 8 primes).

(** Big-endian bytes of the low [8 * n] bits of [x]. *)
Fixpoint be_bytes (n : nat) (x : Z) : list Z :=
  match n with
  | O => []
  | S k => Z.land (Z.shiftr x (8 * Z.of_nat k)) 0xFF :: be_bytes k x
  end.

Definition pad (msg : list Z) : list Z :=
  let len := Z.of_nat (length msg) in
  msg ++ [0x80] ++ repeat 0 (Z.to_nat ((55 - len) mod 64))
      ++ be_bytes 8 (8 * len).

Fixpoint words (fuel : nat) (bs : list Z) : list Z :=
  match fuel, bs with
  | S f, b0 :: b1 :: b2 :: b3 :: r =>
      (Z.shiftl b0 24 + Z.shiftl b1 16 + Z.shiftl b2 8 + b3) :: words f r
  | _, _ => []
  end.

Definition nthw (w : list Z) (i : nat) : Z := nth i w 0.

(** The message schedule: the 16 words of the block extended to 64. *)
Fixpoint extend (n : nat) (w : list Z) : list Z :=
  match n with
  | O => w
  | S k =>
      let t := length w in
      let x := add32 (add32 (sigma1 (nthw w (t - 2))) (nthw w (t - 7)))
                     (add32 (sigma0 (nthw w (t - 15))) (nthw w (t - 16))) in
      extend k (w ++ [x])
  end.

Definition round (st : list Z) (kw : Z * Z) : list Z :=
  match st with
  | [a; b; c; d; e; f; g; h] =>
      let t1 := add32 (add32 (add32 h (Sigma1 e)) (Ch e f g))
                      (add32 (fst kw) (snd kw)) in
      let t2 := add32 (Sigma0 a) (Maj a b c) in
      [add32 t1 t2; a; b; c; add32 d t1; e; f; g]
  | _ => st
  end.

Definition compress (h : list Z) (block : list Z) : list Z :=
  let w := extend 48 (words 16 block) in
  let st := fold_left round (combine K w) h in
  map (fun p => add32 (fst p) (snd p)) (combine h st).

Fixpoint blocks (fuel : nat) (h : list Z) (bs : list Z) : list Z :=
  match fuel with
  | O => h
  | S f =>
      match bs with
      | [] => h
      | _ => blocks f (compress h (firstn 64 bs)) (skipn 64 bs)
      end
  end.

Definition digest_words (msg : list Z) : list Z :=
  let p := pad msg in blocks (S (length p / 64)) H0 p.

(** [hashlib.sha256(data).digest()]: 32 bytes. *)
Definition sha256 (data : bytes) : bytes :=
  let msg := map (fun b => Z.of_N (Byte.to_N b)) data in
  map (fun z => byte_of_N (Z.to_N z))
      (concat (map (be_bytes 4) (digest_words msg))).

End SHA256.

(** A [hashlib] hash object: by the library's contract, successive
    [update]s are equivalent to one [update] with the concatenation. *)
Record hashobj := Hashobj { fed : bytes }.

Definition sha256_new : hashobj := Hashobj [].
Definition sha256_update (h : hashobj) (buf : bytes) : hashobj :=
  Hashobj (fed h ++ buf).
Definition sha256_digest (h : hashobj) : bytes := SHA256.sha256 (fed h).

(** ** base64.urlsafe_b64encode *)

Definition b64_alphabet : pystr :=
  u "ABCDEFGHIJKLMNOPQRSTUVWXYZabcdefghijklmnopqrstuvwxyz0123456789-_".

Definition b64_char (i : N) : byte :=
  byte_of_N (nth (N.to_nat i) b64_alphabet 0).

Definition b64_pad : byte := byte_of_N 61.

Fixpoint b64_groups (fuel : nat) (bs : list N) : bytes :=
  match fuel with
  | O => []
  | S f =>
      match bs with
      | [] => []
      | [a] =>
          [b64_char (a / 4); b64_char ((a mod 4) * 16); b64_pad; b64_pad]
      | [a; b] =>
          [b64_char (a / 4); b64_char ((a mod 4) * 16 + b / 16);
           b64_char ((b mod 16) * 4); b64_pad]
      | a :: b :: c :: r =>
          [b64_char (a / 4); b64_char ((a mod 4) * 16 + b / 16);
           b64_char ((b mod 16) * 4 + c / 64); b64_char (c mod 64)]
            ++ b64_groups f r
      end
  end.

Definition urlsafe_b64encode (data : bytes) : bytes :=
  b64_groups (S (length data)) (map Byte.to_N data).

(** The manifest's hash field:
    [urlsafe_b64encode(digest).decode("ascii").rstrip("=")]. *)
Definition record_hash (digest : bytes) : pystr :=
  rstrip 61 (decode_ascii (urlsafe_b64encode digest)).

Definition hex_of_bytes (b : bytes) : pystr :=
  concat (map (fun x => let n := Byte.to_N x in
                        [nth (N.to_nat (n / 16)) (u "0123456789abcdef") 0;
                         nth (N.to_nat (n mod 16)) (u "0123456789abcdef") 0]) b).

Definition ascii_bytes (s : string) : bytes :=
  map byte_of_N (u s).

(** ** The world of a build *)

Inductive exn :=
| IOFault                          (* the environment failed an I/O call *)
| FileNotFoundError (path : pystr)
| IsADirectoryError (path : pystr)
| FileExistsError
| UnicodeEncodeError
| ValueError                       (* write to a closed [ZipFile] *)
| FuelExhausted.                   (* artefact of the model's bounded loops *)

Inductive result (A : Type) :=
| Ok (a : A)
| Raise (e : exn).
Arguments Ok {A} a.
Arguments Raise {A} e.

(** A node of the source tree; [os.stat] reports the file type in the high
    bits of [st_mode] and the permissions in the low ones. *)
Inductive node :=
| RegularFile (perm : Z) (data : bytes)
| Directory (perm : Z).

Definition S_IFDIR : Z := 0x4000%Z.   (* 0o040000 *)
Definition S_IFREG : Z := 0x8000%Z.   (* 0o100000 *)
Definition S_IFMT : Z := 0xF000%Z.    (* 0o170000 *)

Definition st_mode (n : node) : Z :=
  match n with
  | RegularFile perm _ => Z.lor S_IFREG perm
  | Directory perm => Z.lor S_IFDIR perm
  end.

Definition st_size (n : node) : N :=
  match n with
  | RegularFile _ data => N.of_nat (length data)
  | Directory _ => 4096
  end.

Definition S_ISDIR (mode : Z) : bool := (Z.land mode S_IFMT =? S_IFDIR)%Z.

(** Modelled from the spec: [normalize_file_permissions] of
    [masonry/utils/helpers.py], which is not among the sources.  The spec
    maps the executable bit to exactly two permission classes, [755] and
    [644]; the file-type bits are kept. *)
Definition normalize_file_permissions (mode : Z) : Z :=
  Z.lor (Z.land mode S_IFMT)
        (if Z.testbit mode 6 then 0x1ED else 0x1A4)%Z.   (* 0o755, 0o644 *)

Definition datetime : Type := N * N * N * N * N * N.

Definition ZIP_STORED : N := 0.
Definition ZIP_DEFLATED : N := 8.

(** [zipfile.ZipInfo]: the header fields the builder sets or relies on. *)
Record ZipInfo := mkZipInfo {
  filename : pystr;
  date_time : datetime;
  compress_type : N;
  external_attr : Z
}.

(** [zipfile.ZipInfo(filename, date_time=(1980,1,1,0,0,0))]. *)
Definition ZipInfo_new (name : pystr) (dt : option datetime) : ZipInfo :=
  {| filename := name;
     date_time := default (1980, 1, 1, 0, 0, 0) dt;
     compress_type := ZIP_STORED;
     external_attr := 0%Z |}.

Definition set_external_attr (a : Z) (zi : ZipInfo) : ZipInfo :=
  {| filename := filename zi; date_time := date_time zi;
     compress_type := compress_type zi; external_attr := a |}.

Definition set_compress_type (c : N) (zi : ZipInfo) : ZipInfo :=
  {| filename := filename zi; date_time := date_time zi;
     compress_type := c; external_attr := external_attr zi |}.

(** A member as stored: its header and its uncompressed content. *)
Definition member : Type := ZipInfo * bytes.

(** [zipfile.ZipFile] opened for writing. *)
Record ZipFile := mkZipFile {
  members : list member;
  is_open : bool;          (* the underlying file object is still held *)
  finalized : bool;        (* the end-of-archive records were written *)
  compression : N
}.

(** What a file of the target directory holds. *)
Inductive content :=
| Raw (data : bytes)
| ZipImage (ms : list member) (complete : bool).

Definition record : Type := pystr * pystr * N.

Record state := mkState {
  src : gmap pystr node;          (* the project's source tree *)
  dist : gmap pystr content;      (* the target directory, by file name *)
  now : datetime;                 (* the wall clock *)
  fault : option nat;             (* the I/O call the environment fails *)
  console : list pystr;
  wheel_zip : ZipFile;            (* self._wheel_zip *)
  records : list record           (* self._records *)
}.

Definition set_src (x : gmap pystr node) (s : state) : state :=
  mkState x (dist s) (now s) (fault s) (console s) (wheel_zip s) (records s).
Definition set_dist (x : gmap pystr content) (s : state) : state :=
  mkState (src s) x (now s) (fault s) (console s) (wheel_zip s) (records s).
Definition set_now (x : datetime) (s : state) : state :=
  mkState (src s) (dist s) x (fault s) (console s) (wheel_zip s) (records s).
Definition set_fault (x : option nat) (s : state) : state :=
  mkState (src s) (dist s) (now s) x (console s) (wheel_zip s) (records s).
Definition set_console (x : list pystr) (s : state) : state :=
  mkState (src s) (dist s) (now s) (fault s) x (wheel_zip s) (records s).
Definition set_wheel_zip (x : ZipFile) (s : state) : state :=
  mkState (src s) (dist s) (now s) (fault s) (console s) x (records s).
Definition set_records (x : list record) (s : state) : state :=
  mkState (src s) (dist s) (now s) (fault s) (console s) (wheel_zip s) x.

(** ** Statements that may raise: state first, exception second *)

Definition M (A : Type) : Type := state -> result A * state.

#[global] Instance M_ret : MRet M := fun A a s => (Ok a, s).
#[global] Instance M_bind : MBind M := fun A B f m s =>
  match m s with
  | (Ok a, s') => f a s'
  | (Raise e, s') => (Raise e, s')
  end.

Definition raise {A} (e : exn) : M A := fun s => (Raise e, s).
Definition get : M state := fun s => (Ok s, s).
Definition modify (f : state -> state) : M unit := fun s => (Ok tt, f s).

(** [try: body finally: fin]. *)
Definition try_finally {A} (body : M A) (fin : M unit) : M A := fun s =>
  let (r, s1) := body s in
  match fin s1 with
  | (Ok _, s2) => (r, s2)
  | (Raise e, s2) => (Raise e, s2)
  end.

(** [try: body except: handler; raise]. *)
Definition try_except_reraise {A} (body : M A) (handler : M unit) : M A :=
  fun s =>
    match body s with
    | (Ok a, s1) => (Ok a, s1)
    | (Raise e, s1) =>
        match handler s1 with
        | (Ok _, s2) => (Raise e, s2)
        | (Raise e', s2) => (Raise e', s2)
        end
    end.

(** [for x in xs: f x]. *)
Fixpoint for_each {A} (xs : list A) (f : A -> M unit) : M unit :=
  match xs with
  | [] => mret tt
  | x :: r => f x;; for_each r f
  end.

(** Every call that reaches the operating system, the console or the
    external build may fail; [fault] says which call of the run does. *)
Definition io_call : M unit := fun s =>
  match fault s with
  | Some O => (Raise IOFault, set_fault None s)
  | Some (S n) => (Ok tt, set_fault (Some n) s)
  | None => (Ok tt, s)
  end.

Definition writeln (line : pystr) : M unit :=
  io_call;; modify (fun s => set_console (console s ++ [line]) s).

(** [os.stat(path)]. *)
Definition os_stat (path : pystr) : M node :=
  io_call;;
  s ← get;
  match src s !! path with
  | Some n => mret n
  | None => raise (FileNotFoundError path)
  end.

(** A file object opened by [open(path, "rb")]. *)
Record handle := mkHandle { h_data : bytes; h_pos : nat }.

Definition open_rb (path : pystr) : M handle :=
  io_call;;
  s ← get;
  match src s !! path with
  | Some (RegularFile _ data) => mret (mkHandle data 0)
  | Some (Directory _) => raise (IsADirectoryError path)
  | None => raise (FileNotFoundError path)
  end.

(** [f.read(n)] and [f.read()]. *)
Definition read_n (n : nat) (f : handle) : M (bytes * handle) :=
  io_call;;
  let buf := take n (drop (h_pos f) (h_data f)) in
  mret (buf, mkHandle (h_data f) (h_pos f + length buf)).

Definition read_all (f : handle) : M (bytes * handle) :=
  io_call;;
  let buf := drop (h_pos f) (h_data f) in
  mret (buf, mkHandle (h_data f) (h_pos f + length buf)).

Definition seek (pos : nat) (f : handle) : M handle :=
  io_call;; mret (mkHandle (h_data f) pos).

(** [ZipFile.writestr(zinfo_or_arcname, data, compress_type=None)]: given a
    bare name the library stamps the member with the current time. *)
Definition writestr (target : pystr + ZipInfo) (data : bytes)
    (ctype : option N) : M unit :=
  s ← get;
  let z := wheel_zip s in
  let zinfo :=
    match target with
    | inl name =>
        set_external_attr (Z.shiftl 0x180 16)%Z   (* 0o600 << 16 *)
          (set_compress_type (compression z)
             (ZipInfo_new name (Some (now s))))
    | inr zi => zi
    end in
  if negb (is_open z) then raise ValueError
  else
    let zinfo := match ctype with
                 | Some c => set_compress_type c zinfo
                 | None => zinfo
                 end in
    io_call;;
    modify (set_wheel_zip
              (mkZipFile (members z ++ [(zinfo, data)]) (is_open z)
                         (finalized z) (compression z))).

(** [ZipFile.close()]: the end records are written inside a [try] whose
    [finally] releases the file object. *)
Definition zip_close : M unit :=
  s ← get;
  let z := wheel_zip s in
  if negb (is_open z) then mret tt
  else
    try_finally
      (io_call;;
       modify (set_wheel_zip
                 (mkZipFile (members z) (is_open z) true (compression z))))
      (modify (fun s' =>
         let z' := wheel_zip s' in
         set_wheel_zip
           (mkZipFile (members z') false (finalized z') (compression z')) s')).

(** ** The vocabulary of the properties *)

(** Two states that differ at most in the pending fault. *)
Definition same_world (s s' : state) : Prop :=
  src s' = src s /\ dist s' = dist s /\ now s' = now s /\
  console s' = console s /\ wheel_zip s' = wheel_zip s /\
  records s' = records s.

(** The header [writestr] stores for a prepared [ZipInfo]. *)
Definition stored_header (zi : ZipInfo) (ctype : option N) : ZipInfo :=
  match ctype with
  | Some c => set_compress_type c zi
  | None => zi
  end.

(** A statement leaves a component of the state as it found it. *)
Definition keeps {A B} (proj : state -> B) (m : M A) : Prop :=
  forall s, proj (snd (m s)) = proj s.

(** The manifest entry that describes a stored member: its path, the
    digest of its stored bytes, their number. *)
Definition record_of_member (m : member) : record :=
  (filename (fst m), record_hash (SHA256.sha256 (snd m)),
   N.of_nat (length (snd m))).

(** A block of a [with self._write_to_zip(...)] statement only composes
    text: it leaves the archive and the records alone. *)
Definition composes_text (body : M pystr) : Prop :=
  keeps wheel_zip body /\ keeps records body.

(** ** Sorting text, as [sorted] does on [str] (by code point) *)

Fixpoint str_leb (a b : pystr) : bool :=
  match a, b with
  | [], _ => true
  | _ :: _, [] => false
  | x :: a', y :: b' => (x <? y) || ((x =? y) && str_leb a' b')
  end.

Fixpoint insert_sorted (x : pystr) (l : list pystr) : list pystr :=
  match l with
  | [] => [x]
  | y :: r => if str_leb x y then x :: l else y :: insert_sorted x r
  end.

Definition sorted (l : list pystr) : list pystr :=
  fold_right insert_sorted [] l.

(** ** [re.sub("[^\w\d.]+", "_", s, flags=re.UNICODE)] *)

(** The Unicode character database decides [\w] and [\d] beyond ASCII. *)
Record Unicode := mkUnicode {
  isalnum_nonascii : N -> bool;
  isdecimal_nonascii : N -> bool
}.

Definition ascii_alnum (c : N) : bool :=
  ((48 <=? c) && (c <=? 57)) || ((65 <=? c) && (c <=? 90))
  || ((97 <=? c) && (c <=? 122)).

(** [\w]: alphanumeric or the underscore. *)
Definition re_word (U : Unicode) (c : N) : bool :=
  if c <? 128 then ascii_alnum c || (c =? 95) else isalnum_nonascii U c.

(** [\d]: a decimal digit. *)
Definition re_digit (U : Unicode) (c : N) : bool :=
  if c <? 128 then (48 <=? c) && (c <=? 57) else isdecimal_nonascii U c.

(** The characters the pattern's negated class leaves alone. *)
Definition wheel_kept (U : Unicode) (c : N) : bool :=
  re_word U c || re_digit U c || (c =? 46).

(** Left-to-right substitution of every leftmost, greedy match of
    [[^...]+] by [repl]; [in_match] says the scan is inside a match whose
    replacement was already emitted. *)
Fixpoint re_sub_negated_plus (kept : N -> bool) (repl : pystr)
    (in_match : bool) (s : pystr) : pystr :=
  match s with
  | [] => []
  | c :: r =>
      if kept c then c :: re_sub_negated_plus kept repl false r
      else if in_match then re_sub_negated_plus kept repl true r
      else repl ++ re_sub_negated_plus kept repl true r
  end.

Definition wheel_escape (U : Unicode) (s : pystr) : pystr :=
  re_sub_negated_plus (wheel_kept U) (u "_") false s.

(** The normalization in the specification's words: the text is cut into
    its maximal runs of characters inside, respectively outside, a class,
    and every run outside the class becomes one underscore. *)
Fixpoint runs (inside : N -> bool) (s : pystr) : list (bool * pystr) :=
  match s with
  | [] => []
  | c :: r =>
      match runs inside r with
      | (b, run) :: rest =>
          if Bool.eqb b (inside c) then (b, c :: run) :: rest
          else (inside c, [c]) :: (b, run) :: rest
      | [] => [(inside c, [c])]
      end
  end.

Definition collapse_runs (inside : N -> bool) (s : pystr) : pystr :=
  concat (map (fun br : bool * pystr => if fst br then snd br else u "_")
              (runs inside s)).

(** Neighbouring runs are of different kinds. *)
Fixpoint alternating (bs : list bool) : Prop :=
  match bs with
  | a :: (b :: _) as rest => a <> b /\ alternating rest
  | _ => True
  end.

(** The class [[A-Za-z0-9.]] the specification names. *)
Definition spec_class (c : N) : bool := ascii_alnum c || (c =? 46).

(** ** Version constraints *)

Module Semver.

(** Modelled from the spec: the version-constraint library
    ([poetry.semver]) is not among the sources.  The spec describes a
    constraint as a predicate over versions that supports containment
    tests and decomposition into disjoint intervals; here a constraint is
    a union of ranges, each with an inclusive lower and an optional
    exclusive upper bound. *)
Definition version : Type := N * N * N.

Definition vlt (a b : version) : bool :=
  let '(a1, a2, a3) := a in
  let '(b1, b2, b3) := b in
  (a1 <? b1) || ((a1 =? b1) && ((a2 <? b2) || ((a2 =? b2) && (a3 <? b3)))).

Definition vle (a b : version) : bool := negb (vlt b a).

Record vrange := mkRange { lo : version; hi : option version }.

Abbreviation constraint := (list vrange).

Definition below (v : version) (h : option version) : bool :=
  match h with
  | Some x => vlt v x
  | None => true
  end.

Definition allows_range (r : vrange) (v : version) : bool :=
  vle (lo r) v && below v (hi r).

Definition allows (c : constraint) (v : version) : bool :=
  existsb (fun r => allows_range r v) c.

Definition nonempty (r : vrange) : bool := below (lo r) (hi r).

Definition overlaps (r1 r2 : vrange) : bool :=
  nonempty r1 && nonempty r2 && below (lo r1) (hi r2) && below (lo r2) (hi r1).

(** Modelled from the spec: [c1.allows_any(c2)] of the absent
    constraint library, "admits any version" of the other constraint:
    some range of the one overlaps some range of the other. *)
Definition allows_any (c1 c2 : constraint) : bool :=
  existsb (fun r1 => existsb (overlaps r1) c2) c1.


(** Modelled from the spec: the constraints [~M.m], [^M.m] (for
    [M >= 1]), [>=M.m] and [c1 || c2] of the absent parser, with the
    ranges the tests of the projector expect of them. *)
Definition tilde (M m : N) : constraint :=
  [mkRange (M, m, 0) (Some (M, m + 1, 0))].
Definition caret (M m : N) : constraint :=
  [mkRange (M, m, 0) (Some (M + 1, 0, 0))].
Definition at_least (M m : N) : constraint := [mkRange (M, m, 0) None].
Definition union (c1 c2 : constraint) : constraint := c1 ++ c2.

(** Modelled from the spec: [parse_constraint(">=2.0.0 <3.0.0")], the
    [2.x] series, as the range it denotes. *)
Definition python2_series : constraint :=
  [mkRange (2, 0, 0) (Some (3, 0, 0))].







(** The order of versions as a proposition. *)
Definition vlt_prop (a b : version) : Prop :=
  a.1.1 < b.1.1 \/
  (a.1.1 = b.1.1 /\ (a.1.2 < b.1.2 \/ (a.1.2 = b.1.2 /\ a.2 < b.2))).



End Semver.

(** ** The constraint projector's marker clause *)

Module Projector.
Import Semver.








End Projector.

(** ** The package being built *)

Module Package.
Record t := mk {
  name : pystr;
  pretty_name : pystr;
  build : option pystr;                     (* [None] or the build script *)
  python_constraint : Semver.constraint
}.
End Package.

Module Metadata.
Record t := mk {
  name : pystr;
  version : pystr;
  summary : pystr;
  home_page : option pystr;
  license : option pystr;
  keywords : option pystr;
  author : option pystr;
  author_email : option pystr;
  requires_python : option pystr;
  classifiers : list pystr;
  provides_extra : list pystr;
  requires_dist : list pystr;
  description_content_type : option pystr;
  description : option pystr
}.
End Metadata.

(** What [masonry/utils/tags.py] reports about the target interpreter. *)
Module Venv.
Record t := mk {
  get_platform : pystr;
  get_abbr_impl : pystr;
  get_impl_ver : pystr;
  get_abi_tag : pystr
}.
End Venv.

(** The builder's inputs.  The module walker, the licence globs, the
    entry-point table and the external build belong to collaborators
    ([Builder], [Module], the virtual environment) and are taken by their
    results: [module_files] are the pairs [(full_path, rel_path)] that
    [copy_module] passes to [_add_file], in its sorted order and after the
    relocation and the skipping of topmost files; [license_files] are the
    pairs for the sorted [COPYING*] and then [LICENSE*] matches. *)
Record Project := mkProject {
  package : Package.t;
  meta : Metadata.t;
  venv : Venv.t;
  module_files : list (pystr * pystr);
  license_files : list (pystr * pystr);
  has_entry_points : bool;      (* "scripts" or "plugins" in local_config *)
  entry_points : list (pystr * list pystr);   (* convert_entry_points() *)
  native_build : gmap pystr node -> gmap pystr node
}.

(** [d[key]] for a dictionary kept as an association list. *)
Definition dict_get {V} (d : list (pystr * list V)) (key : pystr) : list V :=
  match list_find (fun kv => fst kv = key) d with
  | Some (_, kv) => snd kv
  | None => []
  end.

(** Truthiness of an optional text: [None] and [""] are false. *)
Definition truthy (o : option pystr) : bool :=
  match o with
  | Some (_ :: _) => true
  | _ => false
  end.

(** [x or d]. *)
Definition or_default (o : option pystr) (d : pystr) : pystr :=
  match o with
  | Some (c :: r) => c :: r
  | _ => d
  end.

(** A package without a native build step: its project file declares no
    build script, [package.build is None]. *)
Definition pure_package (P : Project) : Prop :=
  Package.build (package P) = None.

Section Builder.

Variable os_sep : N.                (* os.sep *)
Variable U : Unicode.
Variable __version__ : pystr.       (* poetry.__version__ *)
Variable P : Project.

Definition supports_python2 : bool :=
  Semver.allows_any (Package.python_constraint (package P))
                    Semver.python2_series.

Definition dist_info_name (distribution version : pystr) : pystr :=
  let escaped_name := wheel_escape U distribution in
  let escaped_version := wheel_escape U version in
  escaped_name ++ u "-" ++ escaped_version ++ u ".dist-info".

Definition dist_info : pystr :=
  dist_info_name (Package.name (package P)) (Metadata.version (meta P)).

Definition tag : pystr :=
  if truthy (Package.build (package P)) then
    let platform :=
      replace_char 45 (u "_")
        (replace_char 46 (u "_") (Venv.get_platform (venv P))) in
    let impl_name := Venv.get_abbr_impl (venv P) in
    let impl_ver := Venv.get_impl_ver (venv P) in
    let impl := impl_name ++ impl_ver in
    let abi_tag := lower (Venv.get_abi_tag (venv P)) in
    join (u "-") [impl; abi_tag; platform]
  else
    let platform := u "any" in
    let impl := if supports_python2 then u "py2.py3" else u "py3" in
    join (u "-") [impl; u "none"; platform].

Definition wheel_filename : pystr :=
  wheel_escape U (Package.pretty_name (package P)) ++ u "-"
    ++ wheel_escape U (Metadata.version (meta P)) ++ u "-"
    ++ tag ++ u ".whl".

(** [wheel_file_template.format(...)]. *)
Definition wheel_file_template (version pure_lib tag : pystr) : pystr :=
  u "Wheel-Version: 1.0" ++ nl
    ++ u "Generator: poetry " ++ version ++ nl
    ++ u "Root-Is-Purelib: " ++ pure_lib ++ nl
    ++ u "Tag: " ++ tag ++ nl.

Definition _write_wheel_file : pystr :=
  wheel_file_template __version__
    (match Package.build (package P) with
     | None => u "true"
     | Some _ => u "false"
     end)
    tag.

Definition optional_line (key : pystr) (o : option pystr) : pystr :=
  if truthy o then key ++ or_default o [] ++ nl else [].

Definition _write_metadata_file : pystr :=
  let m := meta P in
  u "Metadata-Version: 2.1" ++ nl
    ++ u "Name: " ++ Metadata.name m ++ nl
    ++ u "Version: " ++ Metadata.version m ++ nl
    ++ u "Summary: " ++ Metadata.summary m ++ nl
    ++ u "Home-page: " ++ or_default (Metadata.home_page m) (u "UNKNOWN") ++ nl
    ++ u "License: " ++ or_default (Metadata.license m) (u "UNKOWN") ++ nl
    ++ optional_line (u "Keywords: ") (Metadata.keywords m)
    ++ optional_line (u "Author: ") (Metadata.author m)
    ++ optional_line (u "Author-email: ") (Metadata.author_email m)
    ++ optional_line (u "Requires-Python: ") (Metadata.requires_python m)
    ++ concat (map (fun c => u "Classifier: " ++ c ++ nl)
                   (Metadata.classifiers m))
    ++ concat (map (fun e => u "Provides-Extra: " ++ e ++ nl)
                   (sorted (Metadata.provides_extra m)))
    ++ concat (map (fun d => u "Requires-Dist: " ++ d ++ nl)
                   (sorted (Metadata.requires_dist m)))
    ++ optional_line (u "Description-Content-Type: ")
                     (Metadata.description_content_type m)
    ++ match Metadata.description m with
       | Some d => nl ++ d ++ nl
       | None => []
       end.

Definition _write_entry_points : pystr :=
  concat (map (fun group_name =>
    u "[" ++ group_name ++ u "]" ++ nl
      ++ concat (map (fun ep => replace_char 32 [] ep ++ nl)
                     (sorted (dict_get (entry_points P) group_name)))
      ++ nl) (sorted (map fst (entry_points P)))).

(** *** The archive writer *)

Definition append_record (r : record) : M unit :=
  modify (fun s => set_records (records s ++ [r]) s).

Definition chunk_size : nat := 1024 * 8.

(** The chunked hashing loop of [_add_file]:
    [while True: buf = src.read(1024 * 8); if not buf: break;
     hashsum.update(buf)]. *)
Fixpoint hash_chunks (fuel : nat) (hashsum : hashobj) (f : handle)
    : M (hashobj * handle) :=
  match fuel with
  | O => raise FuelExhausted
  | S k =>
      bf ← read_n chunk_size f;
      match fst bf with
      | [] => mret (hashsum, snd bf)
      | buf => hash_chunks k (sha256_update hashsum buf) (snd bf)
      end
  end.

Definition _add_file (full_path rel_path : pystr) : M unit :=
  let rel_path :=
    if negb (os_sep =? 47) then replace_char os_sep (u "/") rel_path
    else rel_path in
  let zinfo := ZipInfo_new rel_path None in
  st ← os_stat full_path;
  let mode := st_mode st in
  let new_mode := normalize_file_permissions mode in
  let zinfo :=
    set_external_attr (Z.shiftl (Z.land new_mode 0xFFFF) 16) zinfo in
  let zinfo :=
    if S_ISDIR mode
    then set_external_attr (Z.lor (external_attr zinfo) 0x10) zinfo
    else zinfo in
  let hashsum := sha256_new in
  f ← open_rb full_path;
  hf ← hash_chunks (S (length (h_data f))) hashsum f;
  f ← seek 0 (snd hf);
  df ← read_all f;
  writestr (inr zinfo) (fst df) None;;
  st ← os_stat full_path;
  let size := st_size st in
  let hash_digest := record_hash (sha256_digest (fst hf)) in
  append_record (rel_path, hash_digest, size).

(** The context manager [_write_to_zip]: [body] is the block of the
    [with] statement and returns what it wrote to the [StringIO]; the
    statements after the [yield] run only when the block did not raise. *)
Definition _write_to_zip (rel_path : pystr) (body : M pystr) : M unit :=
  text ← body;
  let date_time := (2016, 1, 1, 0, 0, 0) in
  let zi := ZipInfo_new rel_path (Some date_time) in
  match encode_utf8 text with
  | None => raise UnicodeEncodeError
  | Some b =>
      let hashsum := sha256_update sha256_new b in
      let hash_digest := record_hash (sha256_digest hashsum) in
      writestr (inr zi) b (Some ZIP_DEFLATED);;
      append_record (rel_path, hash_digest, N.of_nat (length b))
  end.

(** *** The build pipeline *)

(** The external build runs in the virtual environment and its result is
    merged into the source tree ([native_build]). *)
Definition _build : M unit :=
  if truthy (Package.build (package P)) then
    io_call;;
    modify (fun s => set_src (native_build P (src s)) s)
  else mret tt.

Definition copy_module : M unit :=
  for_each (module_files P) (fun fr => _add_file (fst fr) (snd fr)).

Definition write_metadata : M unit :=
  (if has_entry_points P
   then _write_to_zip (dist_info ++ u "/entry_points.txt")
                      (mret _write_entry_points)
   else mret tt);;
  for_each (license_files P)
    (fun pn => _add_file (fst pn) (dist_info ++ u "/" ++ snd pn));;
  _write_to_zip (dist_info ++ u "/WHEEL") (mret _write_wheel_file);;
  _write_to_zip (dist_info ++ u "/METADATA") (mret _write_metadata_file).

Definition record_line (r : record) : pystr :=
  let '(path, hash, size) := r in
  path ++ u ",sha256=" ++ hash ++ u "," ++ str_of_int size ++ nl.

Definition record_self_line : pystr := dist_info ++ u "/RECORD,," ++ nl.

Definition write_record : M unit :=
  _write_to_zip (dist_info ++ u "/RECORD")
    (s ← get;
     mret (concat (map record_line (records s)) ++ record_self_line)).

(** The four steps inside the [try] of [build]. *)
Definition pipeline : M unit :=
  _build;; copy_module;; write_metadata;; write_record.

Definition build : M unit :=
  writeln (u " - Building <info>wheel</info>");;
  try_finally pipeline zip_close;;
  writeln (u " - Built <fg=cyan>" ++ wheel_filename ++ u "</>").

(** [WheelBuilder.__init__]: no records, a fresh archive on [target_fp]. *)
Definition WheelBuilder_init : M unit :=
  modify (fun s =>
    set_records [] (set_wheel_zip (mkZipFile [] true false ZIP_DEFLATED) s)).

(** *** Publishing into the target directory *)

Fixpoint first_free (d : gmap pystr content) (candidates : list pystr)
    : option pystr :=
  match candidates with
  | [] => None
  | c :: r =>
      match d !! c with
      | None => Some c
      | Some _ => first_free d r
      end
  end.

(** [tempfile.mkstemp(suffix=".whl", dir=directory)]: the first of the
    random candidate names that does not exist is created, empty. *)
Definition mkstemp (candidates : list pystr) : M pystr :=
  io_call;;
  s ← get;
  match first_free (dist s) candidates with
  | Some c =>
      modify (fun s => set_dist (<[c := Raw []]> (dist s)) s);; mret c
  | None => raise FileExistsError
  end.

Definition os_close : M unit := io_call.

(** [open(path, "w+b")] truncates. *)
Definition open_wb (path : pystr) : M unit :=
  io_call;; modify (fun s => set_dist (<[path := Raw []]> (dist s)) s).

(** Leaving [with open(...) as fp]: the file holds what the archive
    writer put into it. *)
Definition fp_close (path : pystr) : M unit :=
  modify (fun s =>
    set_dist (<[path := ZipImage (members (wheel_zip s))
                                 (finalized (wheel_zip s))]> (dist s)) s);;
  io_call.

Definition path_exists (path : pystr) : M bool :=
  io_call;;
  s ← get;
  mret (bool_decide (is_Some (dist s !! path))).

Definition os_unlink (path : pystr) : M unit :=
  io_call;;
  s ← get;
  match dist s !! path with
  | Some _ => modify (fun s => set_dist (delete path (dist s)) s)
  | None => raise (FileNotFoundError path)
  end.

Definition os_rename (old new : pystr) : M unit :=
  io_call;;
  s ← get;
  match dist s !! old with
  | Some c =>
      modify (fun s => set_dist (<[new := c]> (delete old (dist s))) s)
  | None => raise (FileNotFoundError old)
  end.

(** [with open(temp_path, "w+b") as fp: wb = WheelBuilder(...); wb.build()]. *)
Definition with_open_build (temp_path : pystr) : M unit :=
  open_wb temp_path;;
  try_finally (WheelBuilder_init;; build) (fp_close temp_path).

(** The block of the [try] statement of [make_in]. *)
Definition make_in_body (temp_path : pystr) : M unit :=
  with_open_build temp_path;;
  let wheel_path := wheel_filename in
  e ← path_exists wheel_path;
  (if e : bool then os_unlink wheel_path else mret tt);;
  os_rename temp_path wheel_path.

Definition make_in_try (temp_path : pystr) : M unit :=
  try_except_reraise (make_in_body temp_path) (os_unlink temp_path).

Definition make_in (candidates : list pystr) : M unit :=
  temp_path ← mkstemp candidates;
  os_close;;
  make_in_try temp_path.

(** *** The states of a builder *)

(** The archive path [_add_file] uses: always [/]-separated. *)
Definition archive_path (rel_path : pystr) : pystr :=
  if negb (os_sep =? 47) then replace_char os_sep (u "/") rel_path
  else rel_path.

(** The states of a builder: a fresh one, and what successful calls of
    [_add_file] and [_write_to_zip] make of it; the world around the
    builder may change in between. *)
Inductive reachable : state -> Prop :=
| reach_init s : reachable (snd (WheelBuilder_init s))
| reach_add_file s full_path rel_path s' :
    reachable s ->
    _add_file full_path rel_path s = (Ok tt, s') ->
    reachable s'
| reach_write_to_zip s rel_path body s' :
    reachable s ->
    composes_text body ->
    _write_to_zip rel_path body s = (Ok tt, s') ->
    reachable s'
| reach_world s s' :
    reachable s ->
    wheel_zip s' = wheel_zip s -> records s' = records s ->
    reachable s'.



(** A step of the pipeline that, when it succeeds, neither closes nor
    finalizes the archive and keeps the builder among the reachable
    states. *)
Definition steady (m : M unit) : Prop :=
  forall s s', m s = (Ok tt, s') ->
    is_open (wheel_zip s') = is_open (wheel_zip s) /\
    finalized (wheel_zip s') = finalized (wheel_zip s) /\
    (reachable s -> reachable s').

End Builder.

(** ** The vocabulary of the further properties *)

(** The archive paths of the members, in the order of writing. *)
Definition member_names (s : state) : list pystr :=
  map (fun m : member => filename (fst m)) (members (wheel_zip s)).

(** A statement that, when it succeeds, has appended members of the
    given names and no others. *)
Definition appends (m : M unit) (names : list pystr) : Prop :=
  forall s s', m s = (Ok tt, s') -> member_names s' = member_names s ++ names.

(** The members of a wheel, in order: the module's files, the entry
    points if any, the licence files, the two descriptors, the
    manifest. *)
Definition wheel_members (os_sep : N) (U : Unicode) (P : Project)
    : list pystr :=
  map (fun fr => archive_path os_sep (snd fr)) (module_files P)
  ++ (if has_entry_points P
      then [dist_info U P ++ u "/entry_points.txt"] else [])
  ++ map (fun pn => archive_path os_sep (dist_info U P ++ u "/" ++ snd pn))
         (license_files P)
  ++ [dist_info U P ++ u "/WHEEL"; dist_info U P ++ u "/METADATA";
      dist_info U P ++ u "/RECORD"].

(** A statement that does not look at the wall clock: run at another
    time it has the same outcome and leaves the same state, but for the
    time. *)
Definition clock_blind {A} (m : M A) : Prop :=
  forall s t, m (set_now t s) = (fst (m s), set_now t (snd (m s))).

(** Two optional texts that the builder cannot tell apart where it tests
    their truth value: the same text, or both empty or absent. *)
Definition same_truth (a b : option pystr) : Prop :=
  a = b \/ truthy a = false /\ truthy b = false.

(** Two package descriptions that differ at most in the order in which
    the extras and the requirements are listed and in whether an optional
    text that is not given is absent or empty. *)
Definition alike (m1 m2 : Metadata.t) : Prop :=
  Metadata.name m1 = Metadata.name m2 /\
  Metadata.version m1 = Metadata.version m2 /\
  Metadata.summary m1 = Metadata.summary m2 /\
  same_truth (Metadata.home_page m1) (Metadata.home_page m2) /\
  same_truth (Metadata.license m1) (Metadata.license m2) /\
  same_truth (Metadata.keywords m1) (Metadata.keywords m2) /\
  same_truth (Metadata.author m1) (Metadata.author m2) /\
  same_truth (Metadata.author_email m1) (Metadata.author_email m2) /\
  same_truth (Metadata.requires_python m1) (Metadata.requires_python m2) /\
  Metadata.classifiers m1 = Metadata.classifiers m2 /\
  Metadata.provides_extra m1 ≡ₚ Metadata.provides_extra m2 /\
  Metadata.requires_dist m1 ≡ₚ Metadata.requires_dist m2 /\
  same_truth (Metadata.description_content_type m1)
             (Metadata.description_content_type m2) /\
  Metadata.description m1 = Metadata.description m2.

(** Two dictionaries of entry points with the same groups, whatever the
    order of the groups and of the entry points of a group. *)
Definition same_entries (d1 d2 : list (pystr * list pystr)) : Prop :=
  exists d, d ≡ₚ d1 /\
    Forall2 (fun g g' : pystr * list pystr =>
               fst g = fst g' /\ snd g ≡ₚ snd g') d d2.

(** What the outcome of a build depends on: the sources, the archive and
    the records. *)
Definition core (s : state) : gmap pystr node * ZipFile * list record :=
  (src s, wheel_zip s, records s).

(** Two statements whose successful runs, started on states with the
    same sources, archive and records, return the same value and leave
    the same sources, archive and records: whatever the target
    directory, the console, the clock and the failures still pending in
    the environment. *)
Definition agree {A} (m1 m2 : M A) : Prop :=
  forall s1 s2 a1 a2 s1' s2',
    core s1 = core s2 ->
    m1 s1 = (Ok a1, s1') -> m2 s2 = (Ok a2, s2') ->
    a1 = a2 /\ core s1' = core s2'.

(** The archive of a new builder. *)
Definition fresh_archive : ZipFile := mkZipFile [] true false ZIP_DEFLATED.

(** ** Sample inputs *)

(** A Unicode table for text that is ASCII throughout. *)
Definition ascii_only : Unicode := mkUnicode (fun _ => false) (fun _ => false).

Definition sample_meta : Metadata.t :=
  Metadata.mk (u "my-package") (u "1.2.3") (u "A sample") None None None
              None None None [] [] [] None None.

(** A pure package for the interpreters [>=3.6]. *)
Definition sample_project : Project :=
  mkProject
    (Package.mk (u "my-package") (u "My Package!") None (Semver.at_least 3 6))
    sample_meta
    (Venv.mk (u "linux-x86_64") (u "cp") (u "36") (u "cp36m"))
    [(u "/src/my_package/__init__.py", u "my_package/__init__.py")]
    [(u "/src/LICENSE", u "LICENSE")]
    false [] (fun tree => tree).

(** The same package with [build = ""] in its project file. *)
Definition empty_build_project : Project :=
  mkProject
    (Package.mk (u "my-package") (u "My Package!") (Some [])
                (Semver.at_least 3 6))
    sample_meta
    (Venv.mk (u "linux-x86_64") (u "cp") (u "36") (u "cp36m"))
    [] [] false [] (fun tree => tree).

Definition sample_tree : gmap pystr node :=
  <[u "/src/my_package/__init__.py" := RegularFile 0x1A4 (ascii_bytes "x = 1")]>
    (<[u "/src/LICENSE" := RegularFile 0x1A4 (ascii_bytes "MIT")]> ∅).

Definition sample_state : state :=
  mkState sample_tree ∅ (2026, 11, 4, 12, 0, 0) None []
          (mkZipFile [] false false ZIP_STORED) [].

(** The same world without the source tree: every [os.stat] fails. *)
Definition empty_tree_state : state := set_src ∅ sample_state.

Definition sample_version : pystr := u "0.10.0".

(** A builder that has stored one file. *)
Definition one_file_state : state :=
  snd (_add_file 47 (u "/src/LICENSE") (u "LICENSE")
         (snd (WheelBuilder_init sample_state))).

(** The candidate names of [mkstemp] have no dash; a wheel's name has. *)
Definition sample_candidates : list pystr := [u "tmpab12cd34.whl"].


(** A build whose sources are missing raises inside the pipeline. *)
Definition failing_build_state : state :=
  snd (WheelBuilder_init empty_tree_state).


(** A fresh builder on the sample world. *)
Definition fresh_builder : state := snd (WheelBuilder_init sample_state).

(** The same builder where the environment fails the eighth I/O call:
    for the three bytes of the licence file that is the last [os.stat]
    of [_add_file]. *)
Definition late_fault_builder : state := set_fault (Some 7%nat) fresh_builder.

(** The same builder on a tree in which the package is seen as a
    directory. *)
Definition directory_builder : state :=
  set_src (<[u "/src/my_package" := Directory 0x1ED]> sample_tree)
          fresh_builder.

(** A builder that has stored one file and one text. *)
Definition two_member_state : state :=
  snd (_write_to_zip (u "my_package-1.2.3.dist-info/WHEEL")
         (mret (u "Wheel-Version: 1.0")) one_file_state).

(** The sample world where the environment fails the second I/O call of
    the run: the [os.close] of [make_in]. *)
Definition close_fault_state : state := set_fault (Some 1%nat) sample_state.

(** The sample world where the only candidate name of [mkstemp] is
    taken. *)
Definition taken_name_state : state :=
  set_dist (<[u "tmpab12cd34.whl" := Raw []]> ∅) sample_state.

(** A package with a build script, for CPython 3.6 on macOS. *)
Definition native_project : Project :=
  mkProject
    (Package.mk (u "extended") (u "extended") (Some (u "build.py"))
                (Semver.at_least 3 6))
    sample_meta
    (Venv.mk (u "macosx-10.13-x86_64") (u "cp") (u "36") (u "CP36M"))
    [] [] false [] (fun tree => tree).

(** A package with extras, requirements and entry points. *)
Definition listed_meta : Metadata.t :=
  Metadata.mk (u "my-package") (u "1.2.3") (u "A sample") None
              (Some (u "MIT")) None (Some (u "Ada")) None (Some (u ">=3.6"))
              [u "Topic :: Software Development"]
              [u "docs"; u "cli"]
              [u "requests (>=2.18)"; u "cleo (>=0.6)"]
              None None.

Definition listed_project : Project :=
  mkProject
    (Package.mk (u "my-package") (u "My Package!") None (Semver.at_least 3 6))
    listed_meta
    (Venv.mk (u "linux-x86_64") (u "cp") (u "36") (u "cp36m"))
    [(u "/src/my_package/__init__.py", u "my_package/__init__.py")]
    [(u "/src/LICENSE", u "LICENSE")]
    true
    [(u "my.plugins", [u "b = my_package.b:B"; u "a = my_package.a:A"]);
     (u "console_scripts", [u "my-cli = my_package.cli:main"])]
    (fun tree => tree).

(** The same package, listed otherwise, with empty texts for the absent
    ones. *)
Definition relisted_meta : Metadata.t :=
  Metadata.mk (u "my-package") (u "1.2.3") (u "A sample") (Some [])
              (Some (u "MIT")) (Some []) (Some (u "Ada")) None
              (Some (u ">=3.6"))
              [u "Topic :: Software Development"]
              [u "cli"; u "docs"]
              [u "cleo (>=0.6)"; u "requests (>=2.18)"]
              (Some []) None.

Definition relisted_project : Project :=
  mkProject
    (Package.mk (u "my-package") (u "My Package!") None (Semver.at_least 3 6))
    relisted_meta
    (Venv.mk (u "linux-x86_64") (u "cp") (u "36") (u "cp36m"))
    [(u "/src/my_package/__init__.py", u "my_package/__init__.py")]
    [(u "/src/LICENSE", u "LICENSE")]
    true
    [(u "console_scripts", [u "my-cli = my_package.cli:main"]);
     (u "my.plugins", [u "a = my_package.a:A"; u "b = my_package.b:B"])]
    (fun tree => tree).

(** The sample builder later, with another console and with a failure
    pending in the environment that the build does not reach. *)
Definition later_builder : state :=
  set_fault (Some 1000%nat)
    (set_console [u "$ poetry build"]
       (set_now (2027, 1, 1, 0, 0, 0) fresh_builder)).

(** The sample world after the wheel was published, a year later. *)
Definition published_later : state :=
  set_now (2027, 11, 4, 12, 0, 0)
    (snd (make_in 47 ascii_only sample_version sample_project
            sample_candidates sample_state)).

(** * Properties *)

(** ** Test vectors *)

Example sha256_abc :
  hex_of_bytes (SHA256.sha256 (ascii_bytes "abc"))
  = u "ba7816bf8f01cfea414140de5dae2223b00361a396177a9cb410ff61f20015ad".
Proof. vm_compute. reflexivity. Qed.

Example sha256_empty :
  hex_of_bytes (SHA256.sha256 [])
  = u "e3b0c44298fc1c149afbf4c8996fb92427ae41e4649b934ca495991b7852b855".
Proof. vm_compute. reflexivity. Qed.

Example b64_foob :
  decode_ascii (urlsafe_b64encode (ascii_bytes "foob")) = u "Zm9vYg==".
Proof. vm_compute. reflexivity. Qed.

Example record_hash_empty :
  record_hash (SHA256.sha256 []) = u "47DEQpj8HBSa-_TImW-5JCeuQeRkm5NMpJWZG3hSuFU".
Proof. vm_compute. reflexivity. Qed.

Example str_of_int_1024 : str_of_int 1024 = u "1024".
Proof. vm_compute. reflexivity. Qed.

Example str_of_int_0 : str_of_int 0 = u "0".
Proof. vm_compute. reflexivity. Qed.


(** ** Running monadic code *)

Lemma bind_run {A B} (m : M A) (f : A -> M B) (s : state) :
  (m ≫= f) s = match m s with
               | (Ok a, s') => f a s'
               | (Raise e, s') => (Raise e, s')
               end.
Proof. reflexivity. Qed.

Lemma bind_Ok_inv {A B} (m : M A) (f : A -> M B) s b s' :
  (m ≫= f) s = (Ok b, s') ->
  exists a s1, m s = (Ok a, s1) /\ f a s1 = (Ok b, s').
Proof.
  rewrite bind_run. destruct (m s) as [[a|e] s1]; intros H.
  - exists a, s1. split; [reflexivity | exact H].
  - discriminate H.
Qed.

Lemma bind_Raise_inv {A B} (m : M A) (f : A -> M B) s e s' :
  (m ≫= f) s = (Raise e, s') ->
  m s = (Raise e, s') \/
  exists a s1, m s = (Ok a, s1) /\ f a s1 = (Raise e, s').
Proof.
  rewrite bind_run. destruct (m s) as [[a|e0] s1]; intros H.
  - right. exists a, s1. split; [reflexivity | exact H].
  - left. injection H as -> ->. reflexivity.
Qed.

Lemma same_world_refl s : same_world s s.
Proof. repeat split. Qed.

Lemma same_world_trans s1 s2 s3 :
  same_world s1 s2 -> same_world s2 s3 -> same_world s1 s3.
Proof.
  unfold same_world. intros (a1 & a2 & a3 & a4 & a5 & a6) (b1 & b2 & b3 & b4 & b5 & b6).
  repeat split; congruence.
Qed.

Lemma io_call_run s r s' :
  io_call s = (r, s') ->
  same_world s s' /\
  match r with
  | Ok _ => fault s <> Some O
  | Raise e => e = IOFault /\ fault s = Some O /\ fault s' = None
  end.
Proof.
  unfold io_call. destruct (fault s) as [[|n]|] eqn:E; intros H;
    injection H as <- <-; (split; [repeat split |]); simpl; auto; congruence.
Qed.

Lemma io_call_no_fault s : fault s = None -> io_call s = (Ok tt, s).
Proof. unfold io_call. intros ->. reflexivity. Qed.

Lemma os_stat_run path s r s' :
  os_stat path s = (r, s') ->
  same_world s s' /\
  match r with
  | Ok n => src s !! path = Some n
  | Raise _ => True
  end.
Proof.
  unfold os_stat. rewrite bind_run.
  destruct (io_call s) as [[[]|e] s1] eqn:E; apply io_call_run in E as [W _].
  - rewrite bind_run. unfold get.
    rewrite (proj1 W).
    destruct (src s !! path) as [n|] eqn:L; intros H; injection H as <- <-;
      (split; [exact W | auto]).
  - intros H. injection H as <- <-. split; [exact W | exact I].
Qed.

Lemma open_rb_run path s r s' :
  open_rb path s = (r, s') ->
  same_world s s' /\
  match r with
  | Ok f => h_pos f = O /\ exists perm, src s !! path = Some (RegularFile perm (h_data f))
  | Raise _ => True
  end.
Proof.
  unfold open_rb. rewrite bind_run.
  destruct (io_call s) as [[[]|e] s1] eqn:E; apply io_call_run in E as [W _].
  - rewrite bind_run. unfold get.
    rewrite (proj1 W).
    destruct (src s !! path) as [[perm data|perm]|] eqn:L; intros H;
      injection H as <- <-; (split; [exact W |]); simpl; eauto.
  - intros H. injection H as <- <-. split; [exact W | exact I].
Qed.

Lemma read_n_run n f s r s' :
  read_n n f s = (r, s') ->
  same_world s s' /\
  match r with
  | Ok bf => fst bf = take n (drop (h_pos f) (h_data f)) /\
             snd bf = mkHandle (h_data f) (h_pos f + length (fst bf))
  | Raise e => e = IOFault
  end.
Proof.
  unfold read_n. rewrite bind_run.
  destruct (io_call s) as [[[]|e] s1] eqn:E; apply io_call_run in E as [W X];
    intros H; injection H as <- <-; (split; [exact W |]); simpl; tauto.
Qed.

Lemma read_all_run f s r s' :
  read_all f s = (r, s') ->
  same_world s s' /\
  match r with
  | Ok bf => fst bf = drop (h_pos f) (h_data f)
  | Raise e => e = IOFault
  end.
Proof.
  unfold read_all. rewrite bind_run.
  destruct (io_call s) as [[[]|e] s1] eqn:E; apply io_call_run in E as [W X];
    intros H; injection H as <- <-; (split; [exact W |]); simpl; tauto.
Qed.

Lemma seek_run pos f s r s' :
  seek pos f s = (r, s') ->
  same_world s s' /\
  match r with
  | Ok f' => f' = mkHandle (h_data f) pos
  | Raise e => e = IOFault
  end.
Proof.
  unfold seek. rewrite bind_run.
  destruct (io_call s) as [[[]|e] s1] eqn:E; apply io_call_run in E as [W X];
    intros H; injection H as <- <-; (split; [exact W |]); simpl; tauto.
Qed.

Lemma hash_chunks_S k hs f :
  hash_chunks (S k) hs f =
  (bf ← read_n chunk_size f;
   match fst bf with
   | [] => mret (hs, snd bf)
   | buf => hash_chunks k (sha256_update hs buf) (snd bf)
   end).
Proof. reflexivity. Qed.

(** The chunked loop terminates within its fuel and has then fed the
    whole of the file to the hash object. *)
Lemma hash_chunks_run fuel : forall hs f s r s',
  (length (h_data f) - h_pos f < fuel)%nat ->
  hash_chunks fuel hs f s = (r, s') ->
  same_world s s' /\
  match r with
  | Ok hf => fed (fst hf) = fed hs ++ drop (h_pos f) (h_data f) /\
             h_data (snd hf) = h_data f
  | Raise e => e = IOFault
  end.
Proof.
  induction fuel as [|k IH]; intros hs f s r s' Hfuel; [lia |].
  rewrite hash_chunks_S, bind_run.
  destruct (read_n chunk_size f s) as [[bf|e] s1] eqn:E;
    apply read_n_run in E as [W X].
  - destruct X as [Xb Xf]. destruct bf as [buf f']. simpl in Xb, Xf |- *.
    subst f'. set (l := drop (h_pos f) (h_data f)) in *.
    assert (Hsplit : buf ++ drop (h_pos f + length buf) (h_data f) = l).
    { rewrite <- drop_drop. fold l. subst buf.
      destruct (decide (chunk_size <= length l)%nat) as [Hle|Hgt].
      - rewrite length_take, Nat.min_l by exact Hle. apply take_drop.
      - rewrite take_ge by lia. rewrite drop_ge by lia. apply app_nil_r. }
    assert (Hlen : (length buf <= length (h_data f) - h_pos f)%nat).
    { subst buf. rewrite length_take. unfold l. rewrite length_drop. lia. }
    destruct buf as [|b buf'].
    + intros H. injection H as <- <-. split; [exact W |]. simpl.
      split; [| reflexivity].
      symmetry in Xb. apply take_nil_inv in Xb as [Xb | Xb];
        [unfold chunk_size in Xb; lia |].
      rewrite Xb, app_nil_r. reflexivity.
    + intros H. apply IH in H; [| simpl in Hlen |- *; lia].
      destruct H as [W2 H]. split; [eapply same_world_trans; eauto |].
      destruct r as [hf|e]; [| exact H].
      destruct H as [H1 H2]. simpl in H1, H2.
      split; [| exact H2]. rewrite H1, <- app_assoc. f_equal. exact Hsplit.
  - intros H. injection H as <- <-. split; [exact W | exact X].
Qed.

Lemma writestr_run zi data ctype s r s' :
  writestr (inr zi) data ctype s = (r, s') ->
  src s' = src s /\ dist s' = dist s /\ now s' = now s /\
  console s' = console s /\ records s' = records s /\
  match r with
  | Ok _ =>
      is_open (wheel_zip s) = true /\
      wheel_zip s' =
        mkZipFile (members (wheel_zip s) ++ [(stored_header zi ctype, data)])
                  true (finalized (wheel_zip s)) (compression (wheel_zip s))
  | Raise _ => wheel_zip s' = wheel_zip s
  end.
Proof.
  unfold writestr. rewrite bind_run. unfold get.
  destruct (is_open (wheel_zip s)) eqn:O; simpl.
  - rewrite bind_run.
    destruct (io_call s) as [[[]|e] s1] eqn:E;
      apply io_call_run in E as [(W1 & W2 & W3 & W4 & W5 & W6) _];
      intros H; injection H as <- <-; simpl; auto 10.
  - intros H. injection H as <- <-. auto 10.
Qed.

Section BuilderFacts.

Variable os_sep : N.
Variable U : Unicode.
Variable __version__ : pystr.
Variable P : Project.

(** What a successful [_add_file] did: one member with the file's bytes
    was appended, and one record with their digest and length. *)
Lemma _add_file_Ok full_path rel_path s s' :
  _add_file os_sep full_path rel_path s = (Ok tt, s') ->
  exists perm data zi,
    src s !! full_path = Some (RegularFile perm data) /\
    filename zi = archive_path os_sep rel_path /\
    date_time zi = (1980, 1, 1, 0, 0, 0) /\
    members (wheel_zip s') = members (wheel_zip s) ++ [(zi, data)] /\
    is_open (wheel_zip s') = is_open (wheel_zip s) /\
    finalized (wheel_zip s') = finalized (wheel_zip s) /\
    records s' = records s ++
      [(archive_path os_sep rel_path, record_hash (SHA256.sha256 data),
        N.of_nat (length data))] /\
    src s' = src s /\ dist s' = dist s.
Proof.
  unfold _add_file. cbv zeta. fold (archive_path os_sep rel_path). intros H.
  apply bind_Ok_inv in H as (st & s1 & E1 & H).
  apply os_stat_run in E1 as [W1 L1].
  apply bind_Ok_inv in H as (f & s2 & E2 & H).
  apply open_rb_run in E2 as [W2 (Pf & perm & L2)].
  apply bind_Ok_inv in H as (hf & s3 & E3 & H).
  apply hash_chunks_run in E3 as [W3 (F3 & D3)]; [| lia].
  apply bind_Ok_inv in H as (f' & s4 & E4 & H).
  apply seek_run in E4 as [W4 ->].
  apply bind_Ok_inv in H as (df & s5 & E5 & H).
  apply read_all_run in E5 as [W5 R5]. simpl in R5.
  apply bind_Ok_inv in H as ([] & s6 & E6 & H).
  apply writestr_run in E6 as (X1 & X2 & X3 & X4 & X5 & X6 & X7).
  apply bind_Ok_inv in H as (st2 & s7 & E7 & H).
  apply os_stat_run in E7 as [W7 L7].
  unfold append_record, modify in H. injection H as <-.
  pose proof (same_world_trans _ _ _ W1
               (same_world_trans _ _ _ W2
                  (same_world_trans _ _ _ W3
                     (same_world_trans _ _ _ W4 W5)))) as W.
  destruct W as (V1 & V2 & V3 & V4 & V5 & V6).
  destruct W7 as (Y1 & Y2 & Y3 & Y4 & Y5 & Y6).
  rewrite (proj1 W1) in L2. rewrite D3, Pf, drop_0 in *.
  assert (st2 = RegularFile perm (h_data f)) as ->.
  { rewrite X1, V1, L2 in L7. congruence. }
  rewrite L1 in L2. injection L2 as ->.
  eexists perm, (h_data f), _. simpl.
  rewrite Y5, X7, V5. simpl. rewrite Y6, X5, V6, R5. rewrite Y1, X1, V1, Y2, X2, V2.
  unfold sha256_digest. rewrite F3. simpl.
  split; [exact L1 |]. split; [| split]; [| | repeat split; congruence].
  - destruct (S_ISDIR _); reflexivity.
  - destruct (S_ISDIR _); reflexivity.
Qed.

(** What a successful [_write_to_zip] did, given the text its block
    wrote. *)
Lemma _write_to_zip_Ok rel_path body s s' :
  _write_to_zip rel_path body s = (Ok tt, s') ->
  exists text s1 b zi,
    body s = (Ok text, s1) /\
    encode_utf8 text = Some b /\
    filename zi = rel_path /\
    date_time zi = (2016, 1, 1, 0, 0, 0) /\
    members (wheel_zip s') = members (wheel_zip s1) ++ [(zi, b)] /\
    is_open (wheel_zip s') = is_open (wheel_zip s1) /\
    finalized (wheel_zip s') = finalized (wheel_zip s1) /\
    records s' = records s1 ++
      [(rel_path, record_hash (SHA256.sha256 b), N.of_nat (length b))] /\
    src s' = src s1 /\ dist s' = dist s1.
Proof.
  unfold _write_to_zip. intros H.
  apply bind_Ok_inv in H as (text & s1 & E1 & H). cbv zeta in H.
  destruct (encode_utf8 text) as [b|] eqn:Eb; [| discriminate H].
  apply bind_Ok_inv in H as ([] & s2 & E2 & H).
  apply writestr_run in E2 as (X1 & X2 & X3 & X4 & X5 & X6 & X7).
  unfold append_record, modify in H. injection H as <-.
  eexists text, s1, b, _. simpl. rewrite X7, X5, X1, X2. simpl.
  repeat split; try reflexivity; try assumption. congruence.
Qed.

End BuilderFacts.

(** ** Frame properties: what a statement leaves alone *)

Lemma keeps_ret {A B} (proj : state -> B) (a : A) : keeps proj (mret a).
Proof. intros s. reflexivity. Qed.

Lemma keeps_raise {A B} (proj : state -> B) (e : exn) :
  keeps proj (raise e : M A).
Proof. intros s. reflexivity. Qed.

Lemma keeps_get {B} (proj : state -> B) : keeps proj get.
Proof. intros s. reflexivity. Qed.

Lemma keeps_modify {B} (proj : state -> B) (f : state -> state) :
  (forall s, proj (f s) = proj s) -> keeps proj (modify f).
Proof. intros H s. apply H. Qed.

Lemma keeps_bind {A B C} (proj : state -> C) (m : M A) (f : A -> M B) :
  keeps proj m -> (forall a, keeps proj (f a)) -> keeps proj (m ≫= f).
Proof.
  intros Hm Hf s. rewrite bind_run. specialize (Hm s).
  destruct (m s) as [[a|e] s1]; simpl in Hm |- *; [| exact Hm].
  rewrite Hf. exact Hm.
Qed.

Lemma keeps_try_finally {A C} (proj : state -> C) (body : M A) (fin : M unit) :
  keeps proj body -> keeps proj fin -> keeps proj (try_finally body fin).
Proof.
  intros Hb Hf s. unfold try_finally. specialize (Hb s).
  destruct (body s) as [r s1]. specialize (Hf s1).
  destruct (fin s1) as [[[]|e] s2]; simpl in *; congruence.
Qed.

Lemma keeps_for_each {A C} (proj : state -> C) (xs : list A) (f : A -> M unit) :
  (forall x, keeps proj (f x)) -> keeps proj (for_each xs f).
Proof.
  intros Hf. induction xs as [|x r IH]; simpl.
  - apply keeps_ret.
  - apply keeps_bind; [apply Hf | intros _; exact IH].
Qed.

Lemma keeps_io_call {B} (proj : state -> B) :
  (forall x s, proj (set_fault x s) = proj s) -> keeps proj io_call.
Proof.
  intros H s. unfold io_call. destruct (fault s) as [[|n]|]; simpl; auto.
Qed.

Lemma keeps_hash_chunks {B} (proj : state -> B) fuel :
  (forall x s, proj (set_fault x s) = proj s) ->
  forall hs f, keeps proj (hash_chunks fuel hs f).
Proof.
  intros H. induction fuel as [|k IH]; intros hs f.
  - apply keeps_raise.
  - rewrite hash_chunks_S. apply keeps_bind.
    + unfold read_n. apply keeps_bind; [apply keeps_io_call, H |].
      intros _. apply keeps_ret.
    + intros bf. destruct (fst bf); [apply keeps_ret | apply IH].
Qed.

(** Discharges [keeps proj m] for code built from the primitives, when
    [proj] is a field that the setters involved leave alone. *)
Ltac keeps_step :=
  match goal with
  | |- keeps _ (mbind _ _) => apply keeps_bind; [| intros ?]
  | |- keeps _ (mret _) => apply keeps_ret
  | |- keeps _ (raise _) => apply keeps_raise
  | |- keeps _ get => apply keeps_get
  | |- keeps _ io_call => apply keeps_io_call; intros; reflexivity
  | |- keeps _ (modify _) => apply keeps_modify; intros; reflexivity
  | |- keeps _ (try_finally _ _) => apply keeps_try_finally
  | |- keeps _ (for_each _ _) => apply keeps_for_each; intros ?
  | |- keeps _ (hash_chunks _ _ _) =>
      apply keeps_hash_chunks; intros; reflexivity
  | |- keeps _ (match ?x with _ => _ end) => destruct x
  | |- keeps _ (let _ := _ in _) => cbv zeta
  end.

Ltac keeps_auto := repeat keeps_step.

Section Frames.

Variable os_sep : N.
Variable U : Unicode.
Variable __version__ : pystr.
Variable P : Project.

Lemma keeps_dist_add_file full rel :
  keeps dist (_add_file os_sep full rel).
Proof.
  unfold _add_file, os_stat, open_rb, seek, read_all, writestr,
    append_record.
  keeps_auto.
Qed.

Lemma keeps_dist_write_to_zip rel body :
  keeps dist body -> keeps dist (_write_to_zip rel body).
Proof.
  intros Hb. unfold _write_to_zip, writestr, append_record.
  apply keeps_bind; [exact Hb |]. intros text. keeps_auto.
Qed.

Lemma keeps_dist_zip_close : keeps dist zip_close.
Proof. unfold zip_close. keeps_auto. Qed.

Lemma keeps_dist_build : keeps dist (build os_sep U __version__ P).
Proof.
  unfold build, pipeline, writeln, _build, copy_module, write_metadata,
    write_record.
  keeps_auto;
    try apply keeps_dist_add_file;
    try (apply keeps_dist_write_to_zip; keeps_auto);
    try apply keeps_dist_zip_close.
Qed.

End Frames.

(** ** The archive writer's member list *)

Section Writer.

Variable os_sep : N.
Variable U : Unicode.
Variable __version__ : pystr.
Variable P : Project.

Lemma composes_text_ret text : composes_text (mret text).
Proof. split; apply keeps_ret. Qed.

Lemma composes_text_manifest :
  composes_text
    (s ← get;
     mret (concat (map (record_line) (records s)) ++ record_self_line U P)).
Proof. split; keeps_auto. Qed.

Lemma reachable_consistent s :
  reachable os_sep s ->
  records s = map record_of_member (members (wheel_zip s)).
Proof.
  induction 1 as [s | s full rel s' _ IH H | s rel body s' _ IH [Kz Kr] H
                 | s s' _ IH Hz Hr].
  - reflexivity.
  - apply _add_file_Ok in H
      as (perm & data & zi & _ & Hn & _ & Hm & _ & _ & Hr & _).
    rewrite Hr, Hm, map_app, IH. simpl. unfold record_of_member. simpl.
    rewrite Hn. reflexivity.
  - apply _write_to_zip_Ok in H
      as (text & s1 & b & zi & Hb & _ & Hn & _ & Hm & _ & _ & Hr & _).
    specialize (Kz s). specialize (Kr s). rewrite Hb in Kz, Kr. simpl in Kz, Kr.
    rewrite Hr, Hm, map_app, Kz, Kr, IH. simpl. unfold record_of_member. simpl.
    rewrite Hn. reflexivity.
  - rewrite Hr, Hz. exact IH.
Qed.




End Writer.


(** ** Closing the archive *)

Lemma try_finally_snd {A} (body : M A) (fin : M unit) s :
  snd (try_finally body fin s) = snd (fin (snd (body s))).
Proof.
  unfold try_finally. destruct (body s) as [r s1]. simpl.
  destruct (fin s1) as [[[]|e] s2]; reflexivity.
Qed.


Lemma zip_close_Ok s s' :
  zip_close s = (Ok tt, s') ->
  is_open (wheel_zip s) = true ->
  wheel_zip s' = mkZipFile (members (wheel_zip s)) false true
                           (compression (wheel_zip s)).
Proof.
  unfold zip_close. rewrite bind_run. unfold get. intros H O. rewrite O in H.
  simpl in H. unfold try_finally in H. rewrite bind_run in H.
  destruct (io_call s) as [[[]|e] s1] eqn:E;
    apply io_call_run in E as [(_ & _ & _ & _ & W & _) _]; simpl in H.
  - injection H as <-. reflexivity.
  - discriminate H.
Qed.

Section Closing.

Variable os_sep : N.
Variable U : Unicode.
Variable __version__ : pystr.
Variable P : Project.


End Closing.

(** ** Publishing the archive *)

Lemma open_wb_run path s r s' :
  open_wb path s = (r, s') ->
  wheel_zip s' = wheel_zip s /\
  match r with
  | Ok _ => dist s' = <[path := Raw []]> (dist s)
  | Raise _ => dist s' = dist s
  end.
Proof.
  unfold open_wb. rewrite bind_run.
  destruct (io_call s) as [[[]|e] s1] eqn:E;
    apply io_call_run in E as [(_ & W & _ & _ & Z & _) _];
    intros H; injection H as <- <-; simpl; rewrite ?W; auto.
Qed.

Lemma fp_close_run path s r s' :
  fp_close path s = (r, s') ->
  wheel_zip s' = wheel_zip s /\
  dist s' = <[path := ZipImage (members (wheel_zip s))
                               (finalized (wheel_zip s))]> (dist s).
Proof.
  unfold fp_close. rewrite bind_run. unfold modify.
  match goal with |- context [io_call ?x] =>
    destruct (io_call x) as [[[]|e] s1] eqn:E;
      apply io_call_run in E as [(_ & W & _ & _ & Z & _) _]
  end; intros H; injection H as <- <-; simpl in *; auto.
Qed.

Lemma path_exists_run path s r s' :
  path_exists path s = (r, s') ->
  dist s' = dist s /\ wheel_zip s' = wheel_zip s /\
  match r with
  | Ok b => b = bool_decide (is_Some (dist s !! path))
  | Raise _ => True
  end.
Proof.
  unfold path_exists. rewrite bind_run.
  destruct (io_call s) as [[[]|e] s1] eqn:E;
    apply io_call_run in E as [(_ & W & _ & _ & Z & _) _];
    intros H; injection H as <- <-; simpl; rewrite ?W; auto.
Qed.

Lemma os_unlink_run path s r s' :
  os_unlink path s = (r, s') ->
  wheel_zip s' = wheel_zip s /\
  match r with
  | Ok _ => dist s' = delete path (dist s)
  | Raise _ => dist s' = dist s
  end.
Proof.
  unfold os_unlink. rewrite bind_run.
  destruct (io_call s) as [[[]|e] s1] eqn:E;
    apply io_call_run in E as [(_ & W & _ & _ & Z & _) _].
  - rewrite bind_run. unfold get.
    destruct (dist s1 !! path); intros H; injection H as <- <-; simpl;
      rewrite ?W; auto.
  - intros H; injection H as <- <-; auto.
Qed.

Lemma os_rename_run old new s r s' :
  os_rename old new s = (r, s') ->
  wheel_zip s' = wheel_zip s /\
  match r with
  | Ok _ => exists c, dist s !! old = Some c /\
                      dist s' = <[new := c]> (delete old (dist s))
  | Raise _ => dist s' = dist s
  end.
Proof.
  unfold os_rename. rewrite bind_run.
  destruct (io_call s) as [[[]|e] s1] eqn:E;
    apply io_call_run in E as [(_ & W & _ & _ & Z & _) _].
  - rewrite bind_run. unfold get. rewrite W.
    destruct (dist s !! old) as [c|] eqn:L; intros H; injection H as <- <-;
      simpl; rewrite ?W; eauto.
  - intros H; injection H as <- <-; auto.
Qed.

Lemma first_free_spec d cands c :
  first_free d cands = Some c -> c ∈ cands /\ d !! c = None.
Proof.
  induction cands as [|x r IH]; simpl; [discriminate |].
  destruct (d !! x) eqn:L.
  - intros H. apply IH in H as [H1 H2]. split; [right; exact H1 | exact H2].
  - intros H. injection H as <-. split; [left | exact L].
Qed.

Lemma mkstemp_Ok cands s temp s1 :
  mkstemp cands s = (Ok temp, s1) ->
  temp ∈ cands /\ dist s !! temp = None /\
  dist s1 = <[temp := Raw []]> (dist s).
Proof.
  unfold mkstemp. rewrite bind_run.
  destruct (io_call s) as [[[]|e] s0] eqn:E;
    apply io_call_run in E as [(_ & W & _) _]; [| discriminate].
  rewrite bind_run. unfold get. rewrite W.
  destruct (first_free (dist s) cands) as [c|] eqn:F; [| discriminate].
  rewrite bind_run. unfold modify. intros H. injection H as <- <-. simpl.
  apply first_free_spec in F as [F1 F2]. rewrite W. auto.
Qed.

Section Publishing.

Variable os_sep : N.
Variable U : Unicode.
Variable __version__ : pystr.
Variable P : Project.

Lemma steady_ret : steady os_sep (mret tt).
Proof. intros s s' H. injection H as <-. auto. Qed.

Lemma steady_seq (m k : M unit) : steady os_sep m -> steady os_sep k -> steady os_sep (m;; k).
Proof.
  intros Hm Hk s s' H. apply bind_Ok_inv in H as ([] & s1 & E1 & E2).
  apply Hm in E1 as (A1 & A2 & A3). apply Hk in E2 as (B1 & B2 & B3).
  split; [congruence |]. split; [congruence | auto].
Qed.

Lemma steady_for_each {A} (xs : list A) (f : A -> M unit) :
  (forall x, steady os_sep (f x)) -> steady os_sep (for_each xs f).
Proof.
  intros Hf. induction xs as [|x r IH]; simpl.
  - apply steady_ret.
  - apply steady_seq; [apply Hf | exact IH].
Qed.

Lemma steady_add_file full rel : steady os_sep (_add_file os_sep full rel).
Proof.
  intros s s' H. pose proof H as H0.
  apply _add_file_Ok in H as (perm & data & zi & _ & _ & _ & _ & O & F & _).
  split; [exact O |]. split; [exact F |].
  intros R. eapply reach_add_file; eauto.
Qed.

Lemma steady_write_to_zip rel body :
  composes_text body -> steady os_sep (_write_to_zip rel body).
Proof.
  intros C s s' H. pose proof H as H0.
  apply _write_to_zip_Ok in H
    as (text & s1 & b & zi & Hb & _ & _ & _ & _ & O & F & _).
  destruct C as [Kz Kr]. pose proof (Kz s) as Z. rewrite Hb in Z. simpl in Z.
  rewrite Z in O, F.
  split; [exact O |]. split; [exact F |].
  intros R. eapply reach_write_to_zip; eauto. split; assumption.
Qed.

Lemma steady_build : steady os_sep (_build P).
Proof.
  intros s s' H.
  assert (Kz : keeps wheel_zip (_build P)) by (unfold _build; keeps_auto).
  assert (Kr : keeps records (_build P)) by (unfold _build; keeps_auto).
  specialize (Kz s). specialize (Kr s). rewrite H in Kz, Kr. simpl in Kz, Kr.
  rewrite Kz. split; [reflexivity |]. split; [reflexivity |].
  intros R. eapply reach_world; eauto.
Qed.

Lemma steady_pipeline : steady os_sep (pipeline os_sep U __version__ P).
Proof.
  unfold pipeline, copy_module, write_metadata, write_record.
  repeat first
    [ apply steady_seq
    | apply steady_build
    | apply steady_for_each; intros ?
    | apply steady_add_file
    | apply steady_write_to_zip; first [apply composes_text_ret
                                       | apply composes_text_manifest]
    | apply steady_ret
    | match goal with |- steady os_sep (if ?b then _ else _) => destruct b end ].
Qed.

(** A successful [build] on an open archive leaves it complete and
    closed. *)
Lemma build_Ok s s' :
  build os_sep U __version__ P s = (Ok tt, s') ->
  is_open (wheel_zip s) = true ->
  finalized (wheel_zip s') = true /\ is_open (wheel_zip s') = false.
Proof.
  unfold build. intros H O.
  apply bind_Ok_inv in H as ([] & s1 & E1 & H).
  apply bind_Ok_inv in H as ([] & s3 & E2 & E3).
  assert (K : forall l, keeps wheel_zip (writeln l))
    by (intros l; unfold writeln; keeps_auto).
  match type of E1 with writeln ?l _ = _ =>
    pose proof (K l s) as K1 end. rewrite E1 in K1. simpl in K1.
  match type of E3 with writeln ?l _ = _ =>
    pose proof (K l s3) as K3 end. rewrite E3 in K3. simpl in K3.
  unfold try_finally in E2.
  destruct (pipeline os_sep U __version__ P s1) as [[[]|e] s2] eqn:Ep.
  - apply steady_pipeline in Ep as (O2 & _ & _).
    destruct (zip_close s2) as [[[]|e] s2'] eqn:Ec; [| discriminate E2].
    injection E2 as ->. apply zip_close_Ok in Ec; [| congruence].
    rewrite K3, Ec. auto.
  - destruct (zip_close s2) as [[[]|e'] s2']; discriminate E2.
Qed.

Lemma with_open_build_run temp s r s' :
  with_open_build os_sep U __version__ P temp s = (r, s') ->
  match r with
  | Ok _ =>
      dist s' = <[temp := ZipImage (members (wheel_zip s')) true]> (dist s)
      /\ is_open (wheel_zip s') = false
  | Raise _ => dist s' = dist s \/ exists c, dist s' = <[temp := c]> (dist s)
  end.
Proof.
  unfold with_open_build. rewrite bind_run.
  destruct (open_wb temp s) as [[[]|e] s1] eqn:E1;
    apply open_wb_run in E1 as [_ D1].
  - unfold try_finally.
    assert (Kd : keeps dist (WheelBuilder_init;; build os_sep U __version__ P)).
    { apply keeps_bind; [unfold WheelBuilder_init; keeps_auto |].
      intros _. apply keeps_dist_build. }
    specialize (Kd s1).
    destruct ((WheelBuilder_init;; build os_sep U __version__ P) s1)
      as [rb s2] eqn:Eb. simpl in Kd.
    destruct (fp_close temp s2) as [rc s3] eqn:Ec.
    apply fp_close_run in Ec as [Zc Dc].
    rewrite Kd, D1, insert_insert_eq in Dc.
    destruct rc as [[]|e]; intros H; injection H as <- <-.
    + destruct rb as [[]|e].
      * apply bind_Ok_inv in Eb as ([] & s1' & Ei & Eb).
        unfold WheelBuilder_init, modify in Ei. injection Ei as <-.
        apply build_Ok in Eb as [F O]; [| reflexivity].
        rewrite Zc. rewrite F in Dc. auto.
      * right. eauto.
    + right. eauto.
  - intros H. injection H as <- <-. left. exact D1.
Qed.


End Publishing.

(** ** Version ranges *)

Section SemverFacts.
Import Semver.

Lemma vlt_true a b : vlt a b = true <-> vlt_prop a b.
Proof.
  destruct a as [[a1 a2] a3], b as [[b1 b2] b3]. unfold vlt, vlt_prop. simpl.
  rewrite !orb_true_iff, !andb_true_iff, !orb_true_iff, !andb_true_iff,
    !N.ltb_lt, !N.eqb_eq. reflexivity.
Qed.

Lemma vle_true a b : vle a b = true <-> ~ vlt_prop b a.
Proof.
  unfold vle. rewrite negb_true_iff, <- not_true_iff_false, vlt_true.
  reflexivity.
Qed.

(** Turns goals on [vlt] and [vle] into linear arithmetic. *)
Ltac vorder :=
  repeat match goal with
         | v : version |- _ => destruct v as [[? ?] ?]
         end;
  repeat match goal with
         | H : vlt _ _ = true |- _ => apply vlt_true in H
         | H : vle _ _ = true |- _ => apply vle_true in H
         | H : vlt _ _ = false |- _ =>
             apply not_true_iff_false in H; rewrite vlt_true in H
         | H : vle _ _ = false |- _ =>
             apply not_true_iff_false in H; rewrite vle_true in H
         | |- vlt _ _ = true => apply vlt_true
         | |- vle _ _ = true => apply vle_true
         | |- vlt _ _ = false =>
             apply not_true_iff_false; rewrite vlt_true
         | |- vle _ _ = false =>
             apply not_true_iff_false; rewrite vle_true
         end;
  unfold vlt_prop in *; simpl in *; lia.

Lemma vle_refl a : vle a a = true.
Proof. vorder. Qed.


Lemma vle_vlt_trans a b c :
  vle a b = true -> vlt b c = true -> vlt a c = true.
Proof. intros H1 H2. vorder. Qed.

Lemma vlt_vle_trans a b c :
  vlt a b = true -> vle b c = true -> vlt a c = true.
Proof. intros H1 H2. vorder. Qed.

Lemma vle_total a b : vle a b = true \/ vle b a = true.
Proof.
  destruct (vle a b) eqn:E; [left; reflexivity | right]. vorder.
Qed.

Lemma vlt_vle a b : vlt a b = true -> vle a b = true.
Proof. intros H. vorder. Qed.

Lemma below_le a b h : vle a b = true -> below b h = true -> below a h = true.
Proof.
  destruct h as [x|]; simpl; [| reflexivity]. apply vle_vlt_trans.
Qed.


(** Two ranges overlap exactly when some version lies in both. *)
Lemma overlaps_spec r1 r2 :
  overlaps r1 r2 = true <->
  exists v, allows_range r1 v = true /\ allows_range r2 v = true.
Proof.
  unfold overlaps, allows_range. rewrite !andb_true_iff. split.
  - intros [[[N1 N2] B1] B2]. unfold nonempty in N1, N2.
    destruct (vle_total (lo r1) (lo r2)) as [L|L].
    + exists (lo r2). rewrite L, vle_refl, B2, N2. auto.
    + exists (lo r1). rewrite L, vle_refl, B1, N1. auto.
  - intros (v & H1 & H2).
    apply andb_true_iff in H1 as [L1 H1]. apply andb_true_iff in H2 as [L2 H2].
    unfold nonempty. repeat split; eapply below_le; eauto.
Qed.

Lemma allows_spec c v :
  allows c v = true <-> exists r, r ∈ c /\ allows_range r v = true.
Proof.
  unfold allows. rewrite existsb_exists.
  split; intros (r & H1 & H2); exists r; split; auto;
    apply list_elem_of_In; auto.
Qed.

(** [allows_any] decides whether the two constraints share a version. *)
Lemma allows_any_spec c1 c2 :
  allows_any c1 c2 = true <->
  exists v, allows c1 v = true /\ allows c2 v = true.
Proof.
  unfold allows_any. rewrite existsb_exists. split.
  - intros (r1 & I1 & H). apply existsb_exists in H as (r2 & I2 & H).
    apply overlaps_spec in H as (v & H1 & H2). exists v.
    split; apply allows_spec; eexists; (split; [apply list_elem_of_In |]); eauto.
  - intros (v & H1 & H2).
    apply allows_spec in H1 as (r1 & I1 & H1).
    apply allows_spec in H2 as (r2 & I2 & H2).
    exists r1. split; [apply list_elem_of_In; exact I1 |].
    apply existsb_exists. exists r2.
    split; [apply list_elem_of_In; exact I2 |].
    apply overlaps_spec. eauto.
Qed.

(** The versions of the [2.x] series. *)
Lemma python2_series_spec v :
  allows python2_series v = true <->
  vle (2, 0, 0) v = true /\ vlt v (3, 0, 0) = true.
Proof.
  unfold python2_series, allows, allows_range. simpl.
  rewrite orb_false_r, andb_true_iff. reflexivity.
Qed.


(** *** Decomposition into maximal contiguous ranges *)
















End SemverFacts.

(** ** The compatibility tag *)

(** C5.  For a package without a native build step, the tag is
    [py2.py3-none-any] when the package's interpreter constraint admits
    a version [v] with [2.0.0 <= v < 3.0.0], and [py3-none-any]
    otherwise; and [_build] runs nothing. *)
Theorem tag_of_pure_package (P : Project) :
  pure_package P ->
  (_build P = mret tt) /\
  ((exists v, Semver.allows (Package.python_constraint (package P)) v = true
              /\ Semver.vle (2, 0, 0) v = true
              /\ Semver.vlt v (3, 0, 0) = true) ->
   tag P = u "py2.py3-none-any") /\
  (~ (exists v, Semver.allows (Package.python_constraint (package P)) v = true
                /\ Semver.vle (2, 0, 0) v = true
                /\ Semver.vlt v (3, 0, 0) = true) ->
   tag P = u "py3-none-any").
Proof.
  unfold pure_package. intros Hb. unfold _build, tag. rewrite Hb.
  split; [reflexivity |]. cbn [truthy].
  unfold supports_python2.
  destruct (Semver.allows_any _ _) eqn:E.
  - split; [intros _; reflexivity |].
    intros Hn. exfalso. apply Hn.
    apply allows_any_spec in E as (v & H1 & H2).
    apply python2_series_spec in H2. eauto.
  - split; [| intros _; reflexivity].
    intros (v & H1 & H2 & H3). exfalso.
    apply not_true_iff_false in E. apply E.
    apply allows_any_spec. exists v. split; [exact H1 |].
    apply python2_series_spec. auto.
Qed.

(** ** The marker clause of an interpreter-version restriction *)


(** ** The descriptors *)

Section Descriptors.

Variable U : Unicode.
Variable __version__ : pystr.
Variable P : Project.


(** The package descriptor begins with the six mandatory lines; the
    fallback of the licence line is spelt [UNKOWN]. *)
Lemma metadata_file_header :
  exists optional,
    _write_metadata_file P
    = unlines [u "Metadata-Version: 2.1";
               u "Name: " ++ Metadata.name (meta P);
               u "Version: " ++ Metadata.version (meta P);
               u "Summary: " ++ Metadata.summary (meta P);
               u "Home-page: "
                 ++ or_default (Metadata.home_page (meta P)) (u "UNKNOWN");
               u "License: "
                 ++ or_default (Metadata.license (meta P)) (u "UNKOWN")]
      ++ optional.
Proof.
  unfold _write_metadata_file, unlines. cbn [map concat].
  eexists. rewrite <- !app_assoc. cbn [app]. reflexivity.
Qed.

(** The output file name is the escaped name, the escaped version and
    the tag, joined by dashes, with the extension [.whl]; escaping
    replaces each maximal run of characters outside [\w], [\d] and [.]
    by one underscore. *)
Lemma re_sub_collapse (kept : N -> bool) (s : pystr) :
  re_sub_negated_plus kept (u "_") false s = collapse_runs kept s /\
  re_sub_negated_plus kept (u "_") true s
  = concat (map (fun br : bool * pystr => if fst br then snd br else u "_")
              match runs kept s with
              | (false, _) :: rest => rest
              | rs => rs
              end).
Proof.
  unfold collapse_runs. induction s as [|c r [IH1 IH2]]; [split; reflexivity |].
  cbn [re_sub_negated_plus runs].
  destruct (kept c) eqn:K.
  - rewrite IH1.
    destruct (runs kept r) as [|[[|] run] rest]; cbn; split; reflexivity.
  - rewrite IH2.
    destruct (runs kept r) as [|[[|] run] rest]; cbn; split; reflexivity.
Qed.

Lemma wheel_escape_collapse (s : pystr) :
  wheel_escape U s = collapse_runs (wheel_kept U) s.
Proof. apply re_sub_collapse. Qed.

End Descriptors.

(** The runs are the maximal ones: they make up the text, none is empty,
    each lies wholly inside or wholly outside the class, and neighbours
    are of different kinds. *)
Lemma runs_maximal (inside : N -> bool) (s : pystr) :
  concat (map snd (runs inside s)) = s /\
  Forall (fun br : bool * pystr =>
            snd br <> [] /\ Forall (fun c => inside c = fst br) (snd br))
         (runs inside s) /\
  alternating (map fst (runs inside s)).
Proof.
  induction s as [|c r (IH1 & IH2 & IH3)]; [repeat split; constructor |].
  cbn [runs]. destruct (runs inside r) as [|[b run] rest] eqn:E.
  - cbn in IH1. subst r. cbn. repeat split; repeat constructor; discriminate.
  - destruct (Bool.eqb b (inside c)) eqn:B.
    + apply Bool.eqb_prop in B. cbn in IH1 |- *. rewrite IH1.
      split; [reflexivity |]. split; [| exact IH3].
      inversion IH2 as [|? ? [_ F] F']; subst.
      constructor; [| exact F']. cbn. split; [discriminate |].
      constructor; [reflexivity | exact F].
    + apply Bool.eqb_false_iff in B. cbn in IH1 |- *. rewrite IH1.
      split; [reflexivity |]. split.
      * constructor; [| exact IH2]. cbn. split; [discriminate |].
        repeat constructor.
      * split; [| exact IH3]. intros X. apply B. symmetry. exact X.
Qed.

(** ** The output file name *)

(** C7 (amended).  The output file name is
    [{escaped name}-{escaped version}-{tag}.whl], where escaping replaces
    every maximal run of characters outside the class [[\w\d.]] by one
    underscore.  Among the ASCII characters that class is
    [[A-Za-z0-9._]]: the underscore belongs to it, so underscores are
    kept as they are and not collapsed; beyond ASCII it holds what the
    Unicode database calls alphanumeric or a decimal digit.  The name
    ["My Package!"] with the version ["1.2.3"] gives a file name that
    begins [My_Package_-1.2.3-]. *)
Theorem wheel_filename_escaped (U : Unicode) (P : Project) :
  wheel_filename U P
  = collapse_runs (wheel_kept U) (Package.pretty_name (package P)) ++ u "-"
      ++ collapse_runs (wheel_kept U) (Metadata.version (meta P)) ++ u "-"
      ++ tag P ++ u ".whl"
  /\ (forall c, wheel_kept U c =
                if c <? 128 then spec_class c || (c =? 95)
                else isalnum_nonascii U c || isdecimal_nonascii U c)
  /\ wheel_escape U (u "My Package!") ++ u "-"
       ++ wheel_escape U (u "1.2.3") ++ u "-"
     = u "My_Package_-1.2.3-".
Proof.
  split; [| split].
  - unfold wheel_filename. rewrite !wheel_escape_collapse. reflexivity.
  - intros c. unfold wheel_kept, re_word, re_digit, spec_class, ascii_alnum.
    destruct (c <? 128) eqn:E.
    2:{ apply N.ltb_ge in E. destruct (N.eqb_spec c 46) as [-> | H46]; [lia |].
        rewrite orb_false_r. reflexivity. }
    destruct (N.eqb_spec c 46) as [-> | H46]; [reflexivity |].
    destruct (N.eqb_spec c 95) as [-> | H95]; [reflexivity |].
    destruct ((48 <=? c) && (c <=? 57)), ((65 <=? c) && (c <=? 90)),
      ((97 <=? c) && (c <=? 122)); reflexivity.
  - vm_compute. reflexivity.
Qed.

(** C7, as stated, fails: the text [a__b] is left as it is, whereas
    collapsing the runs outside [[A-Za-z0-9.]] would give [a_b]. *)
Lemma wheel_escape_keeps_underscores :
  ~ (exists U : Unicode,
       wheel_escape U (u "a__b") = collapse_runs spec_class (u "a__b")).
Proof. intros [U H]. vm_compute in H. discriminate H. Qed.

Lemma run_Ok {A} (m : M A) (s : state) (a : A) :
  fst (m s) = Ok a -> m s = (Ok a, snd (m s)).
Proof. destruct (m s) as [r s']. simpl. intros ->. reflexivity. Qed.

Lemma run_Raise {A} (m : M A) (s : state) (e : exn) :
  fst (m s) = Raise e -> m s = (Raise e, snd (m s)).
Proof. destruct (m s) as [r s']. simpl. intros ->. reflexivity. Qed.

Lemma one_file_reachable : reachable 47 one_file_state.
Proof.
  eapply reach_add_file; [apply (reach_init 47 sample_state) |].
  apply run_Ok. vm_compute. reflexivity.
Qed.

(** ** The properties at the sample inputs *)



Lemma tag_of_pure_package_witness : tag sample_project = u "py3-none-any".
Proof.
  apply (tag_of_pure_package sample_project); [reflexivity |].
  intros (v & H1 & H2 & H3).
  assert (E : Semver.allows_any (Semver.at_least 3 6) Semver.python2_series
              = true).
  { apply allows_any_spec. exists v.
    split; [exact H1 | apply python2_series_spec; auto]. }
  vm_compute in E. discriminate E.
Defined.



Example failing_build_raises :
  fst (build 47 ascii_only sample_version sample_project failing_build_state)
  = Raise (FileNotFoundError (u "/src/my_package/__init__.py")).
Proof. vm_compute. reflexivity. Qed.

(** With the sources missing, [make_in] raises and leaves the target
    directory empty, as it was. *)
Example failing_make_in_leaves_nothing :
  fst (make_in 47 ascii_only sample_version sample_project sample_candidates
         empty_tree_state)
  = Raise (FileNotFoundError (u "/src/my_package/__init__.py")) /\
  dist (snd (make_in 47 ascii_only sample_version sample_project
               sample_candidates empty_tree_state)) = ∅.
Proof. split; vm_compute; reflexivity. Qed.

Example sample_wheel_filename :
  wheel_filename ascii_only sample_project
  = u "My_Package_-1.2.3-py3-none-any.whl".
Proof. vm_compute. reflexivity. Qed.

(** The spec's tag example: [~2.7 || ^3.4] admits [2.x] and [3.x]. *)
Example tag_py2_py3 :
  tag (mkProject
         (Package.mk (u "p") (u "p") None
            (Semver.union (Semver.tilde 2 7) (Semver.caret 3 4)))
         sample_meta (Venv.mk [] [] [] []) [] [] false [] (fun t => t))
  = u "py2.py3-none-any".
Proof. vm_compute. reflexivity. Qed.

(** A project file that says [build = ""] is treated unevenly:
    [_build] and [tag] test the truth value of [build] and take the
    package for a pure one, [_write_wheel_file] tests [build is None] and
    writes [Root-Is-Purelib: false]. *)
Example empty_build_script_descriptor :
  ~ pure_package empty_build_project /\
  _build empty_build_project = mret tt /\
  tag empty_build_project = u "py3-none-any" /\
  _write_wheel_file sample_version empty_build_project
  = unlines [u "Wheel-Version: 1.0";
             u "Generator: poetry 0.10.0";
             u "Root-Is-Purelib: false";
             u "Tag: py3-none-any"].
Proof.
  split; [discriminate |]. repeat split; vm_compute; reflexivity.
Qed.

(** C9.  At a package without home page and licence the package
    descriptor begins with the six mandatory lines, but the licence line
    reads [License: UNKOWN]: the fallback literal is misspelt, where the
    home page's is [UNKNOWN]. *)
Theorem metadata_file_of_unlicensed :
  Metadata.license (meta sample_project) = None /\
  _write_metadata_file sample_project
  = unlines [u "Metadata-Version: 2.1";
             u "Name: my-package";
             u "Version: 1.2.3";
             u "Summary: A sample";
             u "Home-page: UNKNOWN";
             u "License: UNKOWN"].
Proof. split; vm_compute; reflexivity. Qed.

(** [writestr] with a bare name, which the builder never uses, does
    depend on the clock. *)
Example writestr_by_name_reads_clock :
  let s := snd (WheelBuilder_init sample_state) in
  wheel_zip (snd (writestr (inl (u "x")) [] None (set_now (2001, 1, 1, 0, 0, 0) s)))
  <> wheel_zip (snd (writestr (inl (u "x")) [] None (set_now (2002, 1, 1, 0, 0, 0) s))).
Proof. vm_compute. discriminate. Qed.

(** * Further properties of the archive writer *)

Lemma replace_char_without (old : N) (new s : pystr) :
  old ∉ new -> old ∉ replace_char old new s.
Proof.
  intros Hnew. unfold replace_char. induction s as [|c r IH]; simpl.
  - apply not_elem_of_nil.
  - rewrite elem_of_app. intros [H | H]; [| exact (IH H)].
    destruct (N.eqb_spec c old) as [-> | Hc]; [exact (Hnew H) |].
    apply list_elem_of_singleton in H. congruence.
Qed.

Lemma replace_char_single (old new : N) (s : pystr) :
  replace_char old [new] s = map (fun c => if c =? old then new else c) s.
Proof.
  unfold replace_char. induction s as [|c r IH]; simpl; [reflexivity |].
  rewrite IH. destruct (c =? old); reflexivity.
Qed.

(** A statement never runs out of the fuel of the model's loops. *)
Lemma hash_chunks_fuel hs f s s' :
  hash_chunks (S (length (h_data f))) hs f s <> (Raise FuelExhausted, s').
Proof.
  intros H. apply hash_chunks_run in H as [_ H]; [discriminate H | lia].
Qed.

Section WriterEdges.

Variable os_sep : N.

(** X1.  When [_add_file] raises, the records, the source tree and the
    target directory are as before; the archive is as before too, unless
    the failure came at the last [os.stat], after the member was stored:
    then the archive has the file's member and no record of it. *)
Theorem add_file_failure full_path rel_path s e s' :
  _add_file os_sep full_path rel_path s = (Raise e, s') ->
  records s' = records s /\ src s' = src s /\ dist s' = dist s /\
  (wheel_zip s' = wheel_zip s \/
   exists perm data zi,
     src s !! full_path = Some (RegularFile perm data) /\
     filename zi = archive_path os_sep rel_path /\
     members (wheel_zip s') = members (wheel_zip s) ++ [(zi, data)]).
Proof.
  unfold _add_file. cbv zeta. fold (archive_path os_sep rel_path). intros H.
  apply bind_Raise_inv in H as [H | (st & s1 & E1 & H)].
  { apply os_stat_run in H as [(W1 & W2 & _ & _ & W5 & W6) _]. auto. }
  apply os_stat_run in E1 as [W1 L1].
  apply bind_Raise_inv in H as [H | (f & s2 & E2 & H)].
  { apply open_rb_run in H as [W2 _].
    destruct (same_world_trans _ _ _ W1 W2) as (V1 & V2 & _ & _ & V5 & V6).
    auto. }
  apply open_rb_run in E2 as [W2 (Pf & perm & L2)].
  apply bind_Raise_inv in H as [H | (hf & s3 & E3 & H)].
  { apply hash_chunks_run in H as [W3 _]; [| lia].
    destruct (same_world_trans _ _ _ W1 (same_world_trans _ _ _ W2 W3))
      as (V1 & V2 & _ & _ & V5 & V6). auto. }
  apply hash_chunks_run in E3 as [W3 (F3 & D3)]; [| lia].
  apply bind_Raise_inv in H as [H | (f' & s4 & E4 & H)].
  { apply seek_run in H as [W4 _].
    destruct (same_world_trans _ _ _ W1 (same_world_trans _ _ _ W2
               (same_world_trans _ _ _ W3 W4)))
      as (V1 & V2 & _ & _ & V5 & V6). auto. }
  apply seek_run in E4 as [W4 ->].
  pose proof (same_world_trans _ _ _ W1 (same_world_trans _ _ _ W2
               (same_world_trans _ _ _ W3 W4))) as W.
  apply bind_Raise_inv in H as [H | (df & s5 & E5 & H)].
  { apply read_all_run in H as [W5 _].
    destruct (same_world_trans _ _ _ W W5) as (V1 & V2 & _ & _ & V5 & V6).
    auto. }
  apply read_all_run in E5 as [W5 R5]. simpl in R5.
  destruct (same_world_trans _ _ _ W W5) as (V1 & V2 & _ & _ & V5 & V6).
  apply bind_Raise_inv in H as [H | ([] & s6 & E6 & H)].
  { apply writestr_run in H as (X1 & X2 & _ & _ & X5 & X7).
    repeat split; try congruence. left. congruence. }
  apply writestr_run in E6 as (X1 & X2 & _ & _ & X5 & _ & X7).
  apply bind_Raise_inv in H as [H | (st2 & s7 & E7 & H)].
  - apply os_stat_run in H as [(Y1 & Y2 & _ & _ & Y5 & Y6) _].
    repeat split; try congruence. right.
    rewrite (proj1 W1) in L2. rewrite D3 in *.
    eexists perm, (h_data f), _. split; [exact L2 |].
    rewrite Y5, X7, V5, R5, drop_0. simpl. split; [| reflexivity].
    destruct (S_ISDIR _); reflexivity.
  - unfold append_record, modify in H. discriminate H.
Qed.

(** X2.  On a path that does not exist, and with no I/O failure from the
    environment, [_add_file] raises [FileNotFoundError] at its first
    [os.stat] and changes nothing. *)
Theorem add_file_missing_source full_path rel_path s :
  src s !! full_path = None ->
  fault s = None ->
  _add_file os_sep full_path rel_path s
  = (Raise (FileNotFoundError full_path), s).
Proof.
  intros L F. unfold _add_file, os_stat. cbv zeta.
  rewrite !bind_run, (io_call_no_fault s F), bind_run. unfold get.
  rewrite L. reflexivity.
Qed.

(** X3.  A directory never becomes a member: with no I/O failure from
    the environment, [_add_file] on a directory raises
    [IsADirectoryError] when it opens the path, and changes nothing; the
    branch that sets the directory flag has no effect on the archive. *)
Theorem add_file_directory full_path rel_path perm s :
  src s !! full_path = Some (Directory perm) ->
  fault s = None ->
  _add_file os_sep full_path rel_path s
  = (Raise (IsADirectoryError full_path), s).
Proof.
  intros L F. unfold _add_file, os_stat, open_rb. cbv zeta.
  rewrite !bind_run, (io_call_no_fault s F), bind_run. unfold get.
  rewrite L. cbn [mret M_ret]. rewrite !bind_run, (io_call_no_fault s F).
  rewrite bind_run. unfold get. rewrite L. reflexivity.
Qed.

(** X4.  The chunked hashing loop of [_add_file] always ends: whatever
    the file, the state and the failing I/O call, the fuel the model
    gives the loop (one round more than the file has bytes) is never
    used up. *)
Theorem add_file_loop_terminates full_path rel_path s :
  fst (_add_file os_sep full_path rel_path s) <> Raise FuelExhausted.
Proof.
  destruct (_add_file os_sep full_path rel_path s) as [[[]|e] s'] eqn:H;
    [discriminate |].
  simpl. intros X. injection X as ->. revert H. unfold _add_file. cbv zeta.
  intros H.
  apply bind_Raise_inv in H as [H | (st & s1 & E1 & H)].
  { unfold os_stat in H.
    apply bind_Raise_inv in H as [H | ([] & a & _ & H)].
    - apply io_call_run in H as [_ [H _]]. discriminate H.
    - rewrite bind_run in H. unfold get in H.
      destruct (src a !! full_path); discriminate H. }
  apply bind_Raise_inv in H as [H | (f & s2 & E2 & H)].
  { unfold open_rb in H.
    apply bind_Raise_inv in H as [H | ([] & a & _ & H)].
    - apply io_call_run in H as [_ [H _]]. discriminate H.
    - rewrite bind_run in H. unfold get in H.
      destruct (src a !! full_path) as [[? ?|?]|]; discriminate H. }
  apply bind_Raise_inv in H as [H | (hf & s3 & E3 & H)].
  { exact (hash_chunks_fuel _ _ _ _ H). }
  apply bind_Raise_inv in H as [H | (f' & s4 & E4 & H)].
  { apply seek_run in H as [_ H]. discriminate H. }
  apply bind_Raise_inv in H as [H | (df & s5 & E5 & H)].
  { apply read_all_run in H as [_ H]. discriminate H. }
  apply bind_Raise_inv in H as [H | ([] & s6 & E6 & H)].
  { unfold writestr in H. rewrite bind_run in H. unfold get in H.
    destruct (negb (is_open (wheel_zip s5))); [discriminate H |].
    apply bind_Raise_inv in H as [H | ([] & a & _ & H)].
    - apply io_call_run in H as [_ [H _]]. discriminate H.
    - discriminate H. }
  apply bind_Raise_inv in H as [H | (st2 & s7 & E7 & H)].
  - unfold os_stat in H.
    apply bind_Raise_inv in H as [H | ([] & a & _ & H)].
    + apply io_call_run in H as [_ [H _]]. discriminate H.
    + rewrite bind_run in H. unfold get in H.
      destruct (src a !! full_path); discriminate H.
  - discriminate H.
Qed.

(** X5.  The member that [_add_file] stores, and its record, carry the
    archive path with [/] as separator: where the host's separator is
    another character, every occurrence of it has become [/] and none is
    left; on a host whose separator is [/] the path is stored as
    given. *)
Theorem add_file_member_path full_path rel_path s s' :
  _add_file os_sep full_path rel_path s = (Ok tt, s') ->
  exists zi data hash size,
    members (wheel_zip s') = members (wheel_zip s) ++ [(zi, data)] /\
    records s' = records s ++ [(filename zi, hash, size)] /\
    (os_sep = 47 -> filename zi = rel_path) /\
    (os_sep <> 47 ->
       filename zi = map (fun c => if c =? os_sep then 47 else c) rel_path /\
       (os_sep ∉ filename zi)).
Proof.
  intros H. apply _add_file_Ok in H
    as (perm & data & zi & _ & Hn & _ & Hm & _ & _ & Hr & _).
  exists zi, data. eexists _, _. rewrite Hn. split; [exact Hm |].
  split; [exact Hr |]. unfold archive_path.
  destruct (N.eqb_spec os_sep 47) as [E | E]; simpl.
  - split; [reflexivity | contradiction].
  - split; [contradiction |]. intros _. split.
    + apply (replace_char_single os_sep 47).
    + apply replace_char_without. intros X.
      apply list_elem_of_singleton in X. exact (E X).
Qed.

(** X6.  [_write_to_zip] adds a member and its record together or not at
    all: around a block that only composes text, it either succeeds and
    has appended one member and the record that describes it, or raises
    (in the block, at the encoding, on a closed archive, at the write)
    and leaves the archive and the records as they were. *)
Theorem write_to_zip_all_or_nothing rel_path body s :
  composes_text body ->
  match _write_to_zip rel_path body s with
  | (Ok _, s') =>
      exists zi b,
        members (wheel_zip s') = members (wheel_zip s) ++ [(zi, b)] /\
        records s' = records s ++ [record_of_member (zi, b)] /\
        filename zi = rel_path
  | (Raise _, s') =>
      wheel_zip s' = wheel_zip s /\ records s' = records s
  end.
Proof.
  intros [Kz Kr].
  destruct (_write_to_zip rel_path body s) as [[[]|e] s'] eqn:H.
  - apply _write_to_zip_Ok in H
      as (text & s1 & b & zi & Hb & _ & Hn & _ & Hm & _ & _ & Hr & _).
    specialize (Kz s). specialize (Kr s). rewrite Hb in Kz, Kr.
    simpl in Kz, Kr. exists zi, b. rewrite Hm, Hr, Kz, Kr.
    unfold record_of_member. simpl. rewrite Hn. auto.
  - unfold _write_to_zip in H.
    specialize (Kz s). specialize (Kr s).
    apply bind_Raise_inv in H as [H | (text & s1 & Hb & H)].
    { rewrite H in Kz, Kr. auto. }
    rewrite Hb in Kz, Kr. simpl in Kz, Kr. cbv zeta in H.
    destruct (encode_utf8 text) as [b|].
    + apply bind_Raise_inv in H as [H | ([] & s2 & _ & H)].
      * apply writestr_run in H as (_ & _ & _ & _ & X5 & X7).
        split; congruence.
      * discriminate H.
    + injection H as _ <-. auto.
Qed.

End WriterEdges.

(** *** At the sample inputs *)

Lemma add_file_failure_witness :
  let s := late_fault_builder in
  let s' := snd (_add_file 47 (u "/src/LICENSE") (u "LICENSE") s) in
  records s' = records s /\ src s' = src s /\ dist s' = dist s /\
  (wheel_zip s' = wheel_zip s \/
   exists perm data zi,
     src s !! u "/src/LICENSE" = Some (RegularFile perm data) /\
     filename zi = archive_path 47 (u "LICENSE") /\
     members (wheel_zip s') = members (wheel_zip s) ++ [(zi, data)]).
Proof.
  apply (add_file_failure 47 (u "/src/LICENSE") (u "LICENSE")
           late_fault_builder IOFault).
  apply run_Raise. vm_compute. reflexivity.
Defined.

(** There the member is in the archive and no record describes it. *)
Example late_fault_member_without_record :
  let s' := snd (_add_file 47 (u "/src/LICENSE") (u "LICENSE")
                   late_fault_builder) in
  length (members (wheel_zip s')) = 1%nat /\ records s' = [].
Proof. split; vm_compute; reflexivity. Qed.

Lemma add_file_missing_source_witness :
  _add_file 47 (u "/src/absent.py") (u "absent.py") fresh_builder
  = (Raise (FileNotFoundError (u "/src/absent.py")), fresh_builder).
Proof.
  apply (add_file_missing_source 47 (u "/src/absent.py") (u "absent.py")
           fresh_builder).
  - vm_compute. reflexivity.
  - reflexivity.
Defined.

Lemma add_file_directory_witness :
  _add_file 47 (u "/src/my_package") (u "my_package") directory_builder
  = (Raise (IsADirectoryError (u "/src/my_package")), directory_builder).
Proof.
  apply (add_file_directory 47 (u "/src/my_package") (u "my_package") 0x1ED
           directory_builder).
  - vm_compute. reflexivity.
  - reflexivity.
Defined.

Lemma add_file_member_path_witness :
  let s := fresh_builder in
  let s' := snd (_add_file 92 (u "/src/LICENSE") (u "licenses\LICENSE") s) in
  exists zi data hash size,
    members (wheel_zip s') = members (wheel_zip s) ++ [(zi, data)] /\
    records s' = records s ++ [(filename zi, hash, size)] /\
    (92 = 47 -> filename zi = u "licenses\LICENSE") /\
    (92 <> 47 ->
       filename zi = map (fun c => if c =? 92 then 47 else c)
                         (u "licenses\LICENSE") /\
       (92 ∉ filename zi)).
Proof.
  apply (add_file_member_path 92 (u "/src/LICENSE") (u "licenses\LICENSE")
           fresh_builder).
  apply run_Ok. vm_compute. reflexivity.
Defined.

Example backslash_path_stored_with_slashes :
  map (fun m : member => filename (fst m))
      (members (wheel_zip
         (snd (_add_file 92 (u "/src/LICENSE") (u "licenses\LICENSE")
                 fresh_builder))))
  = [u "licenses/LICENSE"].
Proof. vm_compute. reflexivity. Qed.

Lemma write_to_zip_all_or_nothing_witness :
  match _write_to_zip (u "demo-1.0.dist-info/WHEEL") (mret (u "Tag: any"))
          fresh_builder with
  | (Ok _, s') =>
      exists zi b,
        members (wheel_zip s') = members (wheel_zip fresh_builder) ++ [(zi, b)]
        /\ records s' = records fresh_builder ++ [record_of_member (zi, b)]
        /\ filename zi = u "demo-1.0.dist-info/WHEEL"
  | (Raise _, s') =>
      wheel_zip s' = wheel_zip fresh_builder /\ records s' = records fresh_builder
  end.
Proof.
  apply (write_to_zip_all_or_nothing (u "demo-1.0.dist-info/WHEEL")
           (mret (u "Tag: any")) fresh_builder).
  apply composes_text_ret.
Defined.

(** * Further properties of the names *)

Lemma re_sub_only_kept (kept : N -> bool) (r : N) (s : pystr) :
  kept r = true ->
  forall b c, c ∈ re_sub_negated_plus kept [r] b s -> kept c = true.
Proof.
  intros Hr. induction s as [|x s IH]; intros b c; simpl.
  - intros H. apply elem_of_nil in H. contradiction.
  - destruct (kept x) eqn:K.
    + intros H. apply elem_of_cons in H as [-> | H]; [exact K | eauto].
    + destruct b; [eauto |].
      intros H. apply elem_of_cons in H as [-> | H]; [exact Hr | eauto].
Qed.

Lemma re_sub_no_longer (kept : N -> bool) (r : N) (s : pystr) :
  forall b, (length (re_sub_negated_plus kept [r] b s) <= length s)%nat.
Proof.
  induction s as [|x s IH]; intros b; simpl; [lia |].
  destruct (kept x).
  - simpl. specialize (IH false). lia.
  - destruct b; simpl; specialize (IH true); lia.
Qed.

Lemma re_sub_clean (kept : N -> bool) (repl s : pystr) :
  (forall c, c ∈ s -> kept c = true) ->
  forall b, re_sub_negated_plus kept repl b s = s.
Proof.
  induction s as [|x s IH]; intros H b; simpl; [reflexivity |].
  rewrite (H x) by left. f_equal. apply IH. intros c Hc. apply H. right.
  exact Hc.
Qed.

Lemma wheel_escape_kept (U : Unicode) (s : pystr) (c : N) :
  c ∈ wheel_escape U s -> wheel_kept U c = true.
Proof. apply (re_sub_only_kept (wheel_kept U) 95). reflexivity. Qed.

Lemma wheel_escape_without (U : Unicode) (s : pystr) (c : N) :
  wheel_kept U c = false -> c ∉ wheel_escape U s.
Proof. intros H X. apply wheel_escape_kept in X. congruence. Qed.

(** X7.  The escaped text consists only of characters of the class
    [[\w\d.]]: it holds no dash, no slash and no blank, whatever the
    input; and it is never longer than the input. *)
Theorem wheel_escape_only_kept (U : Unicode) (s : pystr) :
  (forall c, c ∈ wheel_escape U s -> wheel_kept U c = true) /\
  (45 ∉ wheel_escape U s) /\ (47 ∉ wheel_escape U s) /\
  (32 ∉ wheel_escape U s) /\
  (length (wheel_escape U s) <= length s)%nat.
Proof.
  split; [intros c; apply wheel_escape_kept |].
  repeat split; try (apply wheel_escape_without; reflexivity).
  apply (re_sub_no_longer (wheel_kept U) 95).
Qed.

(** X8.  Escaping is idempotent, and it leaves a text alone that
    consists of characters of the class only. *)
Theorem wheel_escape_idempotent (U : Unicode) (s : pystr) :
  wheel_escape U (wheel_escape U s) = wheel_escape U s /\
  ((forall c, c ∈ s -> wheel_kept U c = true) -> wheel_escape U s = s).
Proof.
  split.
  - apply re_sub_clean. intros c. apply wheel_escape_kept.
  - intros H. apply re_sub_clean. exact H.
Qed.

(** X9.  The name of the metadata directory is
    [{name}-{version}.dist-info] with no dash inside the two escaped
    parts, so that its first dash separates them, and with no slash at
    all: the metadata members lie directly in one top-level directory
    of the archive. *)
Theorem dist_info_shape (U : Unicode) (P : Project) :
  exists n v,
    dist_info U P = n ++ u "-" ++ v ++ u ".dist-info" /\
    (45 ∉ n) /\ (45 ∉ v) /\ (47 ∉ dist_info U P).
Proof.
  exists (wheel_escape U (Package.name (package P))),
         (wheel_escape U (Metadata.version (meta P))).
  split; [reflexivity |].
  split; [apply wheel_escape_without; reflexivity |].
  split; [apply wheel_escape_without; reflexivity |].
  unfold dist_info, dist_info_name. cbv zeta.
  rewrite !elem_of_app. intros [H | [H | [H | H]]].
  - revert H. apply wheel_escape_without. reflexivity.
  - revert H. apply (bool_decide_unpack _). vm_compute. exact I.
  - revert H. apply wheel_escape_without. reflexivity.
  - revert H. apply (bool_decide_unpack _). vm_compute. exact I.
Qed.

(** X10.  The file name of a pure package's wheel is
    [{name}-{version}-{py}-none-any.whl] with [py] one of [py2.py3] and
    [py3]; the escaped name and version hold no dash, so the dashes of
    the file name are exactly the separators of its five parts, and the
    name holds no slash: the file is created in the target directory
    itself. *)
Theorem wheel_filename_of_pure_package (U : Unicode) (P : Project) :
  pure_package P ->
  exists n v py,
    wheel_filename U P = n ++ u "-" ++ v ++ u "-" ++ py ++ u "-none-any.whl" /\
    (45 ∉ n) /\ (45 ∉ v) /\ (py = u "py2.py3" \/ py = u "py3") /\
    (47 ∉ wheel_filename U P).
Proof.
  unfold pure_package. intros Hb.
  exists (wheel_escape U (Package.pretty_name (package P))),
         (wheel_escape U (Metadata.version (meta P))),
         (if supports_python2 P then u "py2.py3" else u "py3").
  assert (E : wheel_filename U P
              = wheel_escape U (Package.pretty_name (package P)) ++ u "-"
                  ++ wheel_escape U (Metadata.version (meta P)) ++ u "-"
                  ++ (if supports_python2 P then u "py2.py3" else u "py3")
                  ++ u "-none-any.whl").
  { unfold wheel_filename, tag. rewrite Hb. cbn [truthy].
    destruct (supports_python2 P); reflexivity. }
  split; [exact E |].
  split; [apply wheel_escape_without; reflexivity |].
  split; [apply wheel_escape_without; reflexivity |].
  split; [destruct (supports_python2 P); auto |].
  rewrite E, !elem_of_app. intros [H | [H | [H | [H | [H | H]]]]].
  - revert H. apply wheel_escape_without. reflexivity.
  - revert H. apply (bool_decide_unpack _). vm_compute. exact I.
  - revert H. apply wheel_escape_without. reflexivity.
  - revert H. apply (bool_decide_unpack _). vm_compute. exact I.
  - revert H. destruct (supports_python2 P);
      apply (bool_decide_unpack _); vm_compute; exact I.
  - revert H. apply (bool_decide_unpack _). vm_compute. exact I.
Qed.

Lemma wheel_filename_of_pure_package_witness :
  exists n v py,
    wheel_filename ascii_only sample_project
    = n ++ u "-" ++ v ++ u "-" ++ py ++ u "-none-any.whl" /\
    (45 ∉ n) /\ (45 ∉ v) /\ (py = u "py2.py3" \/ py = u "py3") /\
    (47 ∉ wheel_filename ascii_only sample_project).
Proof.
  apply (wheel_filename_of_pure_package ascii_only sample_project).
  reflexivity.
Defined.

(** X11.  In the tag of a package with a build script the platform part
    is the platform of the environment with every dot and every dash
    turned into an underscore, and holds neither; the ABI part is in
    lower case. *)
Theorem tag_of_native_package (P : Project) :
  truthy (Package.build (package P)) = true ->
  exists platform,
    tag P = Venv.get_abbr_impl (venv P) ++ Venv.get_impl_ver (venv P)
              ++ u "-" ++ lower (Venv.get_abi_tag (venv P))
              ++ u "-" ++ platform /\
    platform = map (fun c => if (c =? 46) || (c =? 45) then 95 else c)
                   (Venv.get_platform (venv P)) /\
    (45 ∉ platform) /\ (46 ∉ platform).
Proof.
  intros Hb. unfold tag. rewrite Hb. cbv zeta.
  eexists. split; [cbn [join]; rewrite <- !app_assoc; reflexivity |].
  split.
  - rewrite !(replace_char_single _ 95), map_map.
    apply map_ext. intros c.
    destruct (N.eqb_spec c 46) as [-> | H46]; [reflexivity |].
    cbn [orb]. reflexivity.
  - split.
    + apply replace_char_without. intros X.
      apply list_elem_of_singleton in X. discriminate X.
    + rewrite !(replace_char_single _ 95), map_map. intros X.
      apply list_elem_of_fmap in X as (c & E & _). revert E.
      destruct (N.eqb_spec c 46) as [-> | H46]; [discriminate |].
      destruct (N.eqb_spec c 45) as [-> | H45]; [discriminate |].
      congruence.
Qed.

Lemma tag_of_native_package_witness :
  exists platform,
    tag native_project
    = Venv.get_abbr_impl (venv native_project)
        ++ Venv.get_impl_ver (venv native_project)
        ++ u "-" ++ lower (Venv.get_abi_tag (venv native_project))
        ++ u "-" ++ platform /\
    platform = map (fun c => if (c =? 46) || (c =? 45) then 95 else c)
                   (Venv.get_platform (venv native_project)) /\
    (45 ∉ platform) /\ (46 ∉ platform).
Proof. apply (tag_of_native_package native_project). reflexivity. Defined.

Example native_tag :
  tag native_project = u "cp36-cp36m-macosx_10_13_x86_64".
Proof. vm_compute. reflexivity. Qed.

(** * Further properties of the build *)

Lemma appends_ret : appends (mret tt) [].
Proof. intros s s' H. injection H as <-. rewrite app_nil_r. reflexivity. Qed.

Lemma appends_seq (m k : M unit) (a b : list pystr) :
  appends m a -> appends k b -> appends (m;; k) (a ++ b).
Proof.
  intros Hm Hk s s' H. apply bind_Ok_inv in H as ([] & s1 & E1 & E2).
  rewrite (Hk _ _ E2), (Hm _ _ E1), app_assoc. reflexivity.
Qed.

Lemma appends_for_each {A} (xs : list A) (f : A -> M unit) (g : A -> pystr) :
  (forall x, appends (f x) [g x]) -> appends (for_each xs f) (map g xs).
Proof.
  intros Hf. induction xs as [|x r IH]; simpl.
  - apply appends_ret.
  - apply (appends_seq _ _ [g x]); [apply Hf | exact IH].
Qed.

Lemma appends_add_file os_sep full rel :
  appends (_add_file os_sep full rel) [archive_path os_sep rel].
Proof.
  intros s s' H. apply _add_file_Ok in H
    as (perm & data & zi & _ & Hn & _ & Hm & _).
  unfold member_names. rewrite Hm, map_app. simpl. rewrite Hn. reflexivity.
Qed.

Lemma appends_write_to_zip rel body :
  composes_text body -> appends (_write_to_zip rel body) [rel].
Proof.
  intros [Kz _] s s' H. apply _write_to_zip_Ok in H
    as (text & s1 & b & zi & Hb & _ & Hn & _ & Hm & _).
  specialize (Kz s). rewrite Hb in Kz. simpl in Kz.
  unfold member_names. rewrite Hm, map_app, Kz. simpl. rewrite Hn.
  reflexivity.
Qed.

Lemma appends_build P : appends (_build P) [].
Proof.
  intros s s' H.
  assert (Kz : keeps wheel_zip (_build P)) by (unfold _build; keeps_auto).
  specialize (Kz s). rewrite H in Kz. simpl in Kz.
  unfold member_names. rewrite Kz, app_nil_r. reflexivity.
Qed.

Lemma appends_write_metadata os_sep U v P :
  appends (write_metadata os_sep U v P)
    ((if has_entry_points P
      then [dist_info U P ++ u "/entry_points.txt"] else [])
     ++ map (fun pn => archive_path os_sep (dist_info U P ++ u "/" ++ snd pn))
            (license_files P)
     ++ [dist_info U P ++ u "/WHEEL"; dist_info U P ++ u "/METADATA"]).
Proof.
  unfold write_metadata. apply appends_seq.
  { destruct (has_entry_points P).
    - apply appends_write_to_zip, composes_text_ret.
    - apply appends_ret. }
  apply appends_seq.
  { apply appends_for_each. intros x. apply appends_add_file. }
  apply (appends_seq _ _ [_] [_]);
    apply appends_write_to_zip, composes_text_ret.
Qed.

Lemma appends_pipeline os_sep U v P :
  appends (pipeline os_sep U v P) (wheel_members os_sep U P).
Proof.
  assert (X : appends (pipeline os_sep U v P)
                ([] ++ map (fun fr => archive_path os_sep (snd fr))
                           (module_files P)
                    ++ ((if has_entry_points P
                         then [dist_info U P ++ u "/entry_points.txt"]
                         else [])
                        ++ map (fun pn => archive_path os_sep
                                            (dist_info U P ++ u "/" ++ snd pn))
                               (license_files P)
                        ++ [dist_info U P ++ u "/WHEEL";
                            dist_info U P ++ u "/METADATA"])
                    ++ [dist_info U P ++ u "/RECORD"])).
  { unfold pipeline.
    apply appends_seq; [apply appends_build |].
    apply appends_seq.
    { unfold copy_module. apply appends_for_each. intros x.
      apply appends_add_file. }
    apply appends_seq; [apply appends_write_metadata |].
    unfold write_record. apply appends_write_to_zip, composes_text_manifest. }
  intros s s' H. rewrite (X s s' H). unfold wheel_members.
  cbn [app]. rewrite <- !app_assoc. reflexivity.
Qed.

Lemma zip_close_members s :
  members (wheel_zip (snd (zip_close s))) = members (wheel_zip s).
Proof.
  unfold zip_close. rewrite bind_run. unfold get.
  destruct (is_open (wheel_zip s)); simpl; [| reflexivity].
  rewrite try_finally_snd. simpl. rewrite bind_run.
  destruct (io_call s) as [[[]|e] s1] eqn:E;
    apply io_call_run in E as [(_ & _ & _ & _ & W & _) _]; simpl;
    [reflexivity | rewrite W; reflexivity].
Qed.

Lemma keeps_wheel_zip_writeln l : keeps wheel_zip (writeln l).
Proof. unfold writeln. keeps_auto. Qed.

Section BuildFacts.

Variable os_sep : N.
Variable U : Unicode.
Variable __version__ : pystr.
Variable P : Project.

(** X12.  A successful [build] appends the members of the wheel in a
    fixed order: the module's files as [copy_module] meets them, the
    entry points if the project declares any, the licence files, then
    [WHEEL], [METADATA] and, last of all, [RECORD]. *)
Theorem build_member_order s s' :
  build os_sep U __version__ P s = (Ok tt, s') ->
  member_names s' = member_names s ++ wheel_members os_sep U P /\
  last (member_names s') = Some (dist_info U P ++ u "/RECORD").
Proof.
  intros H.
  assert (E : member_names s' = member_names s ++ wheel_members os_sep U P).
  { unfold build in H.
    apply bind_Ok_inv in H as ([] & s1 & E1 & H).
    apply bind_Ok_inv in H as ([] & s3 & E2 & E3).
    match type of E1 with writeln ?l _ = _ =>
      pose proof (keeps_wheel_zip_writeln l s) as K1 end. rewrite E1 in K1.
    match type of E3 with writeln ?l _ = _ =>
      pose proof (keeps_wheel_zip_writeln l s3) as K3 end. rewrite E3 in K3.
    simpl in K1, K3.
    pose proof (try_finally_snd (pipeline os_sep U __version__ P) zip_close s1)
      as T. rewrite E2 in T. simpl in T.
    unfold try_finally in E2.
    destruct (pipeline os_sep U __version__ P s1) as [[[]|e] s2] eqn:Ep.
    - apply appends_pipeline in Ep. simpl in T.
      unfold member_names in *. rewrite K3, T, zip_close_members, Ep, K1.
      reflexivity.
    - destruct (zip_close s2) as [[[]|e'] s2']; discriminate E2. }
  split; [exact E |].
  rewrite E. unfold wheel_members. rewrite !app_assoc.
  rewrite (app_assoc _ [_; _] [_]) || idtac.
  change [dist_info U P ++ u "/WHEEL"; dist_info U P ++ u "/METADATA";
          dist_info U P ++ u "/RECORD"]
    with ([dist_info U P ++ u "/WHEEL"; dist_info U P ++ u "/METADATA"]
            ++ [dist_info U P ++ u "/RECORD"]).
  rewrite !app_assoc. apply last_snoc.
Qed.

End BuildFacts.

Lemma keeps_console_guarded os_sep U v P :
  keeps console (try_finally (pipeline os_sep U v P) zip_close).
Proof.
  unfold pipeline, _build, copy_module, write_metadata, write_record,
    _add_file, _write_to_zip, os_stat, open_rb, seek, read_all, writestr,
    append_record, zip_close.
  keeps_auto.
Qed.


Section BuildFrames.

Variable os_sep : N.
Variable U : Unicode.
Variable __version__ : pystr.
Variable P : Project.

Lemma writeln_run l s r s' :
  writeln l s = (r, s') ->
  match r with
  | Ok _ => console s' = console s ++ [l] /\ fault s <> Some O
  | Raise _ => console s' = console s /\ fault s = Some O
  end.
Proof.
  unfold writeln. rewrite bind_run.
  destruct (io_call s) as [[[]|e] s0] eqn:E0;
    apply io_call_run in E0 as [(_ & _ & _ & W & _) F0];
    intros H; injection H as <- <-; simpl; rewrite ?W; tauto.
Qed.

(** X13.  [build] writes to the console the line that announces the
    build, unless that very write fails, and after it the line that
    names the built wheel exactly when it succeeds; nothing else. *)
Theorem build_console s :
  console (snd (build os_sep U __version__ P s))
  = console s
      ++ (if bool_decide (fault s = Some O) then []
          else [u " - Building <info>wheel</info>"])
      ++ match fst (build os_sep U __version__ P s) with
         | Ok _ => [u " - Built <fg=cyan>" ++ wheel_filename U P ++ u "</>"]
         | Raise _ => []
         end.
Proof.
  destruct (build os_sep U __version__ P s) as [r s'] eqn:H. simpl.
  unfold build in H.
  pose proof (keeps_console_guarded os_sep U __version__ P) as K.
  destruct r as [[]|e].
  - apply bind_Ok_inv in H as ([] & s1 & E1 & H).
    apply bind_Ok_inv in H as ([] & s2 & E2 & E3).
    apply writeln_run in E1 as [C1 F1]. apply writeln_run in E3 as [C3 _].
    specialize (K s1). rewrite E2 in K. simpl in K.
    rewrite bool_decide_eq_false_2 by exact F1.
    rewrite C3, K, C1, <- app_assoc. reflexivity.
  - apply bind_Raise_inv in H as [H | ([] & s1 & E1 & H)].
    { apply writeln_run in H as [C F].
      rewrite bool_decide_eq_true_2 by exact F. rewrite C, app_nil_r.
      reflexivity. }
    apply writeln_run in E1 as [C1 F1].
    rewrite bool_decide_eq_false_2 by exact F1.
    apply bind_Raise_inv in H as [H | ([] & s2 & E2 & H)].
    + specialize (K s1). rewrite H in K. simpl in K.
      rewrite K, C1, app_nil_r. reflexivity.
    + specialize (K s1). rewrite E2 in K. simpl in K.
      apply writeln_run in H as [C3 _].
      rewrite C3, K, C1, app_nil_r. reflexivity.
Qed.


End BuildFrames.

Lemma build_member_order_witness :
  let s' := snd (build 47 ascii_only sample_version sample_project
                   fresh_builder) in
  member_names s'
  = member_names fresh_builder ++ wheel_members 47 ascii_only sample_project
  /\ last (member_names s')
     = Some (dist_info ascii_only sample_project ++ u "/RECORD").
Proof.
  apply (build_member_order 47 ascii_only sample_version sample_project
           fresh_builder).
  apply run_Ok. vm_compute. reflexivity.
Defined.

Example sample_wheel_members :
  member_names (snd (build 47 ascii_only sample_version sample_project
                       fresh_builder))
  = [u "my_package/__init__.py";
     u "my_package-1.2.3.dist-info/LICENSE";
     u "my_package-1.2.3.dist-info/WHEEL";
     u "my_package-1.2.3.dist-info/METADATA";
     u "my_package-1.2.3.dist-info/RECORD"].
Proof. vm_compute. reflexivity. Qed.

(** * Independence of the wall clock *)

Lemma clock_blind_ret {A} (a : A) : clock_blind (mret a).
Proof. intros s t. reflexivity. Qed.

Lemma clock_blind_raise {A} (e : exn) : clock_blind (raise e : M A).
Proof. intros s t. reflexivity. Qed.

Lemma clock_blind_bind {A B} (m : M A) (f : A -> M B) :
  clock_blind m -> (forall a, clock_blind (f a)) -> clock_blind (m ≫= f).
Proof.
  intros Hm Hf s t. rewrite !bind_run, Hm.
  destruct (m s) as [[a|e] s1]; simpl; [apply Hf | reflexivity].
Qed.

(** Reading the state is harmless when what is done with it does not
    depend on the time it holds. *)
Lemma clock_blind_get {A} (k : state -> M A) :
  (forall s0, clock_blind (k s0)) ->
  (forall s t, k (set_now t s) = k s) ->
  clock_blind (get ≫= k).
Proof.
  intros Hk Hn s t. rewrite !bind_run. unfold get. rewrite Hn. apply Hk.
Qed.

Lemma clock_blind_modify (f : state -> state) :
  (forall s t, f (set_now t s) = set_now t (f s)) -> clock_blind (modify f).
Proof. intros H s t. unfold modify. rewrite H. reflexivity. Qed.

Lemma clock_blind_io_call : clock_blind io_call.
Proof.
  intros s t. unfold io_call. simpl.
  destruct (fault s) as [[|n]|]; reflexivity.
Qed.

Lemma clock_blind_try_finally {A} (body : M A) (fin : M unit) :
  clock_blind body -> clock_blind fin -> clock_blind (try_finally body fin).
Proof.
  intros Hb Hf s t. unfold try_finally. rewrite Hb.
  destruct (body s) as [r s1]. simpl. rewrite Hf.
  destruct (fin s1) as [[[]|e] s2]; reflexivity.
Qed.

Lemma clock_blind_try_except {A} (body : M A) (handler : M unit) :
  clock_blind body -> clock_blind handler ->
  clock_blind (try_except_reraise body handler).
Proof.
  intros Hb Hh s t. unfold try_except_reraise. rewrite Hb.
  destruct (body s) as [[a|e] s1]; simpl; [reflexivity |].
  rewrite Hh. destruct (handler s1) as [[[]|e'] s2]; reflexivity.
Qed.

Lemma clock_blind_for_each {A} (xs : list A) (f : A -> M unit) :
  (forall x, clock_blind (f x)) -> clock_blind (for_each xs f).
Proof.
  intros Hf. induction xs as [|x r IH]; simpl.
  - apply clock_blind_ret.
  - apply clock_blind_bind; [apply Hf | intros _; exact IH].
Qed.

Lemma clock_blind_hash_chunks fuel :
  forall hs f, clock_blind (hash_chunks fuel hs f).
Proof.
  induction fuel as [|k IH]; intros hs f.
  - apply clock_blind_raise.
  - rewrite hash_chunks_S. apply clock_blind_bind.
    + unfold read_n. apply clock_blind_bind; [apply clock_blind_io_call |].
      intros _. apply clock_blind_ret.
    + intros bf. destruct (fst bf); [apply clock_blind_ret | apply IH].
Qed.

(** Discharges [clock_blind m] for code built from the primitives. *)
Ltac clock_step :=
  match goal with
  | |- clock_blind (mbind _ get) =>
      apply clock_blind_get; [intros ? | intros; reflexivity]
  | |- clock_blind (mbind _ _) => apply clock_blind_bind; [| intros ?]
  | |- clock_blind (mret _) => apply clock_blind_ret
  | |- clock_blind (raise _) => apply clock_blind_raise
  | |- clock_blind io_call => apply clock_blind_io_call
  | |- clock_blind (modify _) => apply clock_blind_modify; intros; reflexivity
  | |- clock_blind (try_finally _ _) => apply clock_blind_try_finally
  | |- clock_blind (try_except_reraise _ _) => apply clock_blind_try_except
  | |- clock_blind (for_each _ _) => apply clock_blind_for_each; intros ?
  | |- clock_blind (hash_chunks _ _ _) => apply clock_blind_hash_chunks
  | |- clock_blind (match ?x with _ => _ end) => destruct x
  | |- clock_blind (let _ := _ in _) => cbv zeta
  end.

Ltac clock_auto := repeat clock_step.

Lemma clock_blind_build os_sep U v P : clock_blind (build os_sep U v P).
Proof.
  unfold build, pipeline, writeln, _build, copy_module, write_metadata,
    write_record, _add_file, _write_to_zip, os_stat, open_rb, seek, read_all,
    writestr, append_record, zip_close.
  clock_auto.
Qed.

Lemma clock_blind_make_in os_sep U v P cands :
  clock_blind (make_in os_sep U v P cands).
Proof.
  unfold make_in, make_in_try, make_in_body, with_open_build, mkstemp,
    os_close, open_wb, fp_close, path_exists, os_unlink, os_rename,
    WheelBuilder_init.
  clock_auto; apply clock_blind_build.
Qed.

Section Reproducible.

Variable os_sep : N.
Variable U : Unicode.
Variable __version__ : pystr.
Variable P : Project.

(** X15.  A build does not depend on when it runs: started at two
    different times on otherwise equal states, [build] has the same
    outcome and leaves the same archive (members, headers, time stamps
    and contents), the same records and the same console lines. *)
Theorem build_reproducible s t1 t2 :
  let run t := build os_sep U __version__ P (set_now t s) in
  fst (run t1) = fst (run t2) /\
  wheel_zip (snd (run t1)) = wheel_zip (snd (run t2)) /\
  records (snd (run t1)) = records (snd (run t2)) /\
  console (snd (run t1)) = console (snd (run t2)).
Proof.
  intros run. unfold run.
  rewrite !(clock_blind_build os_sep U __version__ P s). simpl. auto.
Qed.

(** X16.  Nor does [make_in]: at two different times it has the same
    outcome and leaves the same target directory, the published archive
    included. *)
Theorem make_in_reproducible candidates s t1 t2 :
  let run t := make_in os_sep U __version__ P candidates (set_now t s) in
  fst (run t1) = fst (run t2) /\
  dist (snd (run t1)) = dist (snd (run t2)).
Proof.
  intros run. unfold run.
  rewrite !(clock_blind_make_in os_sep U __version__ P candidates s).
  simpl. auto.
Qed.

End Reproducible.

(** * Further properties of the archive's contents *)

Section Stamps.

Variable os_sep : N.

Lemma _add_file_member full rel s s' :
  _add_file os_sep full rel s = (Ok tt, s') ->
  exists zi data,
    members (wheel_zip s') = members (wheel_zip s) ++ [(zi, data)] /\
    date_time zi = (1980, 1, 1, 0, 0, 0) /\
    compress_type zi = ZIP_STORED.
Proof.
  unfold _add_file. cbv zeta. intros H.
  apply bind_Ok_inv in H as (st & s1 & E1 & H).
  apply os_stat_run in E1 as [W1 _].
  apply bind_Ok_inv in H as (f & s2 & E2 & H).
  apply open_rb_run in E2 as [W2 _].
  apply bind_Ok_inv in H as (hf & s3 & E3 & H).
  apply hash_chunks_run in E3 as [W3 _]; [| lia].
  apply bind_Ok_inv in H as (f' & s4 & E4 & H).
  apply seek_run in E4 as [W4 _].
  apply bind_Ok_inv in H as (df & s5 & E5 & H).
  apply read_all_run in E5 as [W5 _].
  apply bind_Ok_inv in H as ([] & s6 & E6 & H).
  apply writestr_run in E6 as (_ & _ & _ & _ & _ & _ & Z6).
  apply bind_Ok_inv in H as (st2 & s7 & E7 & H).
  apply os_stat_run in E7 as [(_ & _ & _ & _ & Y & _) _].
  unfold append_record, modify in H. injection H as <-.
  destruct (same_world_trans _ _ _ W1 (same_world_trans _ _ _ W2
             (same_world_trans _ _ _ W3 (same_world_trans _ _ _ W4 W5))))
    as (_ & _ & _ & _ & V & _).
  eexists _, _. simpl. rewrite Y, Z6, V. simpl.
  split; [reflexivity |]. destruct (S_ISDIR _); split; reflexivity.
Qed.

Lemma _write_to_zip_member rel body s s' :
  keeps wheel_zip body ->
  _write_to_zip rel body s = (Ok tt, s') ->
  exists zi data,
    members (wheel_zip s') = members (wheel_zip s) ++ [(zi, data)] /\
    date_time zi = (2016, 1, 1, 0, 0, 0) /\
    compress_type zi = ZIP_DEFLATED.
Proof.
  intros Kz H. unfold _write_to_zip in H.
  apply bind_Ok_inv in H as (text & s1 & E1 & H). cbv zeta in H.
  destruct (encode_utf8 text) as [b|]; [| discriminate H].
  apply bind_Ok_inv in H as ([] & s2 & E2 & H).
  apply writestr_run in E2 as (_ & _ & _ & _ & _ & _ & Z2).
  unfold append_record, modify in H. injection H as <-.
  specialize (Kz s). rewrite E1 in Kz. simpl in Kz.
  eexists _, _. simpl. rewrite Z2, Kz. simpl. auto.
Qed.

(** X17.  Every member of the archive of a builder carries one of two
    constant headers.  A file stored by [_add_file] has the time stamp
    [(1980, 1, 1, 0, 0, 0)], the default of [ZipInfo], and is stored
    uncompressed, [ZIP_STORED] being the default of [ZipInfo] too,
    although the archive was opened with [ZIP_DEFLATED]; a text stored
    by [_write_to_zip] has the time stamp [(2016, 1, 1, 0, 0, 0)] and is
    deflated.  The modification times of the sources and the time of the
    build never enter the archive. *)
Theorem member_headers_constant s :
  reachable os_sep s ->
  Forall (fun m : member =>
            date_time (fst m) = (1980, 1, 1, 0, 0, 0) /\
            compress_type (fst m) = ZIP_STORED \/
            date_time (fst m) = (2016, 1, 1, 0, 0, 0) /\
            compress_type (fst m) = ZIP_DEFLATED)
         (members (wheel_zip s)).
Proof.
  induction 1 as [s | s full rel s' _ IH H | s rel body s' _ IH [Kz Kr] H
                 | s s' _ IH Hz Hr].
  - constructor.
  - apply _add_file_member in H as (zi & data & Hm & Hd & Hc).
    rewrite Hm. apply Forall_app. split; [exact IH |].
    constructor; [left; split; assumption | constructor].
  - apply (_write_to_zip_member _ _ _ _ Kz) in H
      as (zi & data & Hm & Hd & Hc).
    rewrite Hm. apply Forall_app. split; [exact IH |].
    constructor; [right; split; assumption | constructor].
  - rewrite Hz. exact IH.
Qed.

Lemma _add_file_Ok_open full rel s s' :
  _add_file os_sep full rel s = (Ok tt, s') -> is_open (wheel_zip s) = true.
Proof.
  unfold _add_file. cbv zeta. intros H.
  apply bind_Ok_inv in H as (st & s1 & E1 & H).
  apply os_stat_run in E1 as [W1 _].
  apply bind_Ok_inv in H as (f & s2 & E2 & H).
  apply open_rb_run in E2 as [W2 _].
  apply bind_Ok_inv in H as (hf & s3 & E3 & H).
  apply hash_chunks_run in E3 as [W3 _]; [| lia].
  apply bind_Ok_inv in H as (f' & s4 & E4 & H).
  apply seek_run in E4 as [W4 _].
  apply bind_Ok_inv in H as (df & s5 & E5 & H).
  apply read_all_run in E5 as [W5 _].
  apply bind_Ok_inv in H as ([] & s6 & E6 & H).
  apply writestr_run in E6 as (_ & _ & _ & _ & _ & O & _).
  destruct (same_world_trans _ _ _ W1 (same_world_trans _ _ _ W2
             (same_world_trans _ _ _ W3 (same_world_trans _ _ _ W4 W5))))
    as (_ & _ & _ & _ & V & _).
  rewrite <- V. exact O.
Qed.

Lemma _write_to_zip_Ok_open rel body s s' :
  keeps wheel_zip body ->
  _write_to_zip rel body s = (Ok tt, s') -> is_open (wheel_zip s) = true.
Proof.
  intros Kz H. unfold _write_to_zip in H.
  apply bind_Ok_inv in H as (text & s1 & E1 & H). cbv zeta in H.
  destruct (encode_utf8 text) as [b|]; [| discriminate H].
  apply bind_Ok_inv in H as ([] & s2 & E2 & H).
  apply writestr_run in E2 as (_ & _ & _ & _ & _ & O & _).
  specialize (Kz s). rewrite E1 in Kz. simpl in Kz. rewrite <- Kz. exact O.
Qed.

(** X18.  Once the archive is closed, as it is after [build], the
    builder takes no further member: neither [_add_file] nor
    [_write_to_zip] can succeed. *)
Theorem closed_archive_takes_no_member s :
  is_open (wheel_zip s) = false ->
  (forall full_path rel_path,
      fst (_add_file os_sep full_path rel_path s) <> Ok tt) /\
  (forall rel_path body,
      composes_text body -> fst (_write_to_zip rel_path body s) <> Ok tt).
Proof.
  intros Hc. split.
  - intros full rel H. apply run_Ok, _add_file_Ok_open in H. congruence.
  - intros rel body [Kz _] H.
    apply run_Ok, (_write_to_zip_Ok_open _ _ _ _ Kz) in H. congruence.
Qed.

End Stamps.

Lemma member_headers_constant_witness :
  Forall (fun m : member =>
            date_time (fst m) = (1980, 1, 1, 0, 0, 0) /\
            compress_type (fst m) = ZIP_STORED \/
            date_time (fst m) = (2016, 1, 1, 0, 0, 0) /\
            compress_type (fst m) = ZIP_DEFLATED)
         (members (wheel_zip two_member_state)).
Proof.
  apply (member_headers_constant 47 two_member_state).
  eapply reach_write_to_zip;
    [eapply reach_add_file; [apply (reach_init 47 sample_state) |]
    | apply composes_text_ret |];
    apply run_Ok; vm_compute; reflexivity.
Defined.

(** The headers of the sample wheel, member by member. *)
Example sample_wheel_headers :
  map (fun m : member => (date_time (fst m), compress_type (fst m)))
      (members (wheel_zip (snd (build 47 ascii_only sample_version
                                  sample_project fresh_builder))))
  = [((1980, 1, 1, 0, 0, 0), ZIP_STORED);
     ((1980, 1, 1, 0, 0, 0), ZIP_STORED);
     ((2016, 1, 1, 0, 0, 0), ZIP_DEFLATED);
     ((2016, 1, 1, 0, 0, 0), ZIP_DEFLATED);
     ((2016, 1, 1, 0, 0, 0), ZIP_DEFLATED)].
Proof. vm_compute. reflexivity. Qed.

Lemma closed_archive_takes_no_member_witness :
  let s := snd (build 47 ascii_only sample_version sample_project
                  fresh_builder) in
  (forall full_path rel_path,
      fst (_add_file 47 full_path rel_path s) <> Ok tt) /\
  (forall rel_path body,
      composes_text body -> fst (_write_to_zip rel_path body s) <> Ok tt).
Proof.
  apply (closed_archive_takes_no_member 47).
  vm_compute. reflexivity.
Defined.

(** * Further properties of the publication *)

Section BeforeTry.

Variable os_sep : N.
Variable U : Unicode.
Variable __version__ : pystr.
Variable P : Project.

(** X19.  [mkstemp] and [os.close] stand before the [try] of [make_in]:
    when [os.close] raises, the exception leaves [make_in] at once and
    the temporary file that [mkstemp] created stays, empty, in the
    target directory, which is otherwise as it was. *)
Theorem make_in_close_failure candidates s temp s1 e s2 :
  mkstemp candidates s = (Ok temp, s1) ->
  os_close s1 = (Raise e, s2) ->
  make_in os_sep U __version__ P candidates s = (Raise e, s2) /\
  dist s !! temp = None /\
  dist s2 = <[temp := Raw []]> (dist s).
Proof.
  intros Hmk Hcl. split.
  - unfold make_in. rewrite bind_run, Hmk, bind_run, Hcl. reflexivity.
  - apply mkstemp_Ok in Hmk as (_ & Hf & D1). split; [exact Hf |].
    unfold os_close in Hcl. apply io_call_run in Hcl as [(_ & W & _) _].
    congruence.
Qed.

Lemma first_free_None d cands :
  first_free d cands = None -> Forall (fun c => is_Some (d !! c)) cands.
Proof.
  induction cands as [|x r IH]; simpl; [constructor |].
  destruct (d !! x) eqn:L; [| discriminate].
  intros H. constructor; [rewrite L; eauto | exact (IH H)].
Qed.

(** X20.  When [mkstemp] raises, [make_in] raises the same exception and
    nothing was created in the target directory; the exception is the
    failure of the environment or, when every candidate name is taken,
    [FileExistsError]. *)
Theorem make_in_mkstemp_failure candidates s e s1 :
  mkstemp candidates s = (Raise e, s1) ->
  make_in os_sep U __version__ P candidates s = (Raise e, s1) /\
  dist s1 = dist s /\
  (e = IOFault \/
   e = FileExistsError /\
   Forall (fun c => is_Some (dist s !! c)) candidates).
Proof.
  intros Hmk. split.
  { unfold make_in. rewrite bind_run, Hmk. reflexivity. }
  unfold mkstemp in Hmk. rewrite bind_run in Hmk.
  destruct (io_call s) as [[[]|e0] s0] eqn:E0;
    apply io_call_run in E0 as [(_ & W & _) R].
  - rewrite bind_run in Hmk. unfold get in Hmk.
    destruct (first_free (dist s0) candidates) as [c|] eqn:F.
    + rewrite bind_run in Hmk. unfold modify in Hmk. discriminate Hmk.
    + injection Hmk as <- <-. split; [congruence |]. right.
      split; [reflexivity |]. apply first_free_None in F.
      replace (dist s) with (dist s0) by congruence. exact F.
  - injection Hmk as <- <-. destruct R as (-> & _).
    split; [congruence | left; reflexivity].
Qed.

End BeforeTry.

Lemma make_in_close_failure_witness :
  let s2 := snd (os_close (snd (mkstemp sample_candidates
                                  close_fault_state))) in
  make_in 47 ascii_only sample_version sample_project sample_candidates
          close_fault_state = (Raise IOFault, s2) /\
  dist close_fault_state !! u "tmpab12cd34.whl" = None /\
  dist s2 = <[u "tmpab12cd34.whl" := Raw []]> (dist close_fault_state).
Proof.
  apply (make_in_close_failure 47 ascii_only sample_version sample_project
           sample_candidates close_fault_state (u "tmpab12cd34.whl")
           (snd (mkstemp sample_candidates close_fault_state)) IOFault).
  - apply run_Ok. vm_compute. reflexivity.
  - apply run_Raise. vm_compute. reflexivity.
Defined.

Lemma make_in_mkstemp_failure_witness :
  make_in 47 ascii_only sample_version sample_project sample_candidates
          taken_name_state = (Raise FileExistsError, taken_name_state) /\
  dist taken_name_state = dist taken_name_state /\
  (FileExistsError = IOFault \/
   FileExistsError = FileExistsError /\
   Forall (fun c => is_Some (dist taken_name_state !! c)) sample_candidates).
Proof.
  apply (make_in_mkstemp_failure 47 ascii_only sample_version sample_project
           sample_candidates taken_name_state FileExistsError
           taken_name_state).
  vm_compute. reflexivity.
Defined.

(** * Stable listings *)

(** [sorted] orders text by code point; the order is total, so that the
    result depends on the elements only, not on how they were listed. *)

Lemma str_leb_cons x a y b :
  str_leb (x :: a) (y :: b) = true <-> x < y \/ x = y /\ str_leb a b = true.
Proof.
  simpl. rewrite orb_true_iff, andb_true_iff, N.ltb_lt, N.eqb_eq. tauto.
Qed.

Lemma str_leb_total a b : str_leb a b = false -> str_leb b a = true.
Proof.
  revert b. induction a as [|x a IH]; intros [|y b]; try discriminate; auto.
  intros H. apply str_leb_cons.
  destruct (N.lt_trichotomy x y) as [L | [E | G]].
  - assert (K : str_leb (x :: a) (y :: b) = true)
      by (apply str_leb_cons; auto). congruence.
  - right. split; [auto |]. apply IH.
    destruct (str_leb a b) eqn:A; [| reflexivity].
    assert (K : str_leb (x :: a) (y :: b) = true)
      by (apply str_leb_cons; auto). congruence.
  - left. exact G.
Qed.

Lemma str_leb_antisym a b :
  str_leb a b = true -> str_leb b a = true -> a = b.
Proof.
  revert b. induction a as [|x a IH]; intros [|y b]; try discriminate; auto.
  rewrite !str_leb_cons. intros [L | [-> A]] [L' | [E' B]]; try lia.
  f_equal. apply IH; assumption.
Qed.

Lemma str_leb_trans a b c :
  str_leb a b = true -> str_leb b c = true -> str_leb a c = true.
Proof.
  revert b c. induction a as [|x a IH]; intros [|y b] [|z c];
    try discriminate; auto.
  rewrite !str_leb_cons. intros [L | [-> A]] [L' | [-> B]].
  - left. lia.
  - left. exact L.
  - left. exact L'.
  - right. split; [reflexivity |]. eapply IH; eassumption.
Qed.

Lemma insert_sorted_comm x y l :
  insert_sorted x (insert_sorted y l) = insert_sorted y (insert_sorted x l).
Proof.
  induction l as [|z r IH]; simpl.
  - destruct (str_leb x y) eqn:XY, (str_leb y x) eqn:YX; try reflexivity.
    + rewrite (str_leb_antisym x y XY YX). reflexivity.
    + apply str_leb_total in XY. congruence.
  - destruct (str_leb y z) eqn:YZ, (str_leb x z) eqn:XZ; simpl.
    + destruct (str_leb x y) eqn:XY, (str_leb y x) eqn:YX;
        rewrite ?XZ, ?YZ; try reflexivity.
      * rewrite (str_leb_antisym x y XY YX). reflexivity.
      * apply str_leb_total in XY. congruence.
    + destruct (str_leb x y) eqn:XY.
      * rewrite (str_leb_trans x y z XY YZ) in XZ. discriminate.
      * rewrite XZ, YZ. reflexivity.
    + destruct (str_leb y x) eqn:YX.
      * rewrite (str_leb_trans y x z YX XZ) in YZ. discriminate.
      * rewrite XZ, YZ. reflexivity.
    + rewrite XZ, YZ, IH. reflexivity.
Qed.

Lemma sorted_permutation l1 l2 : l1 ≡ₚ l2 -> sorted l1 = sorted l2.
Proof.
  induction 1 as [| x l l' _ IH | x y l | l l' l'' _ IH1 _ IH2]; simpl.
  - reflexivity.
  - rewrite IH. reflexivity.
  - apply insert_sorted_comm.
  - congruence.
Qed.


Example sorted_requirements :
  sorted [u "requests (>=2.18)"; u "cleo (>=0.6)"; u "Cleo"]
  = [u "Cleo"; u "cleo (>=0.6)"; u "requests (>=2.18)"].
Proof. vm_compute. reflexivity. Qed.

Lemma or_default_same_truth a b d :
  same_truth a b -> or_default a d = or_default b d.
Proof.
  intros [-> | [Ha Hb]]; [reflexivity |].
  destruct a as [[|? ?]|], b as [[|? ?]|]; try discriminate; reflexivity.
Qed.

Lemma optional_line_same_truth key a b :
  same_truth a b -> optional_line key a = optional_line key b.
Proof.
  intros [-> | [Ha Hb]]; [reflexivity |].
  unfold optional_line. rewrite Ha, Hb. reflexivity.
Qed.

(** X21.  The package descriptor [METADATA] depends on the description
    of the package only up to the order in which the extras and the
    requirements are listed, which [sorted] removes, and up to the
    difference between an absent and an empty optional text (home page,
    licence, keywords, author, author's address, interpreter
    requirement, content type), which the truth tests remove.  The
    description itself is tested with [is not None] and is not among
    them. *)
Theorem metadata_file_of_alike P1 P2 :
  alike (meta P1) (meta P2) ->
  _write_metadata_file P1 = _write_metadata_file P2.
Proof.
  intros (E1 & E2 & E3 & T4 & T5 & T6 & T7 & T8 & T9 & E10 & P11 & P12
          & T13 & E14).
  unfold _write_metadata_file. cbv zeta.
  rewrite E1, E2, E3, E10, E14.
  rewrite (or_default_same_truth _ _ _ T4), (or_default_same_truth _ _ _ T5).
  rewrite (optional_line_same_truth _ _ _ T6),
    (optional_line_same_truth _ _ _ T7), (optional_line_same_truth _ _ _ T8),
    (optional_line_same_truth _ _ _ T9), (optional_line_same_truth _ _ _ T13).
  rewrite (sorted_permutation _ _ P11), (sorted_permutation _ _ P12).
  reflexivity.
Qed.

Lemma dict_get_cons {V} (g : pystr * list V) d key :
  dict_get (g :: d) key
  = if decide (fst g = key) then snd g else dict_get d key.
Proof.
  unfold dict_get. simpl. destruct (decide (fst g = key)); [reflexivity |].
  destruct (list_find _ d) as [[? ?]|]; reflexivity.
Qed.

Lemma dict_get_missing {V} (d : list (pystr * list V)) key :
  key ∉ map fst d -> dict_get d key = [].
Proof.
  induction d as [|g d IH]; [reflexivity |].
  rewrite dict_get_cons. cbn [map]. intros H.
  apply not_elem_of_cons in H as [H1 H2].
  destruct (decide (fst g = key)); [congruence | exact (IH H2)].
Qed.

Lemma dict_get_unique {V} (d : list (pystr * list V)) key v :
  NoDup (map fst d) -> (key, v) ∈ d -> dict_get d key = v.
Proof.
  induction d as [|g d IH]; intros N H; [inversion H |].
  rewrite dict_get_cons. cbn [map] in N. apply NoDup_cons in N as [N1 N2].
  apply elem_of_cons in H as [<- | H].
  - simpl. destruct (decide (key = key)); [reflexivity | congruence].
  - destruct (decide (fst g = key)) as [<- | _]; [| exact (IH N2 H)].
    exfalso. apply N1. apply list_elem_of_fmap. exists (fst g, v). auto.
Qed.

Lemma dict_get_permutation {V} (d1 d2 : list (pystr * list V)) key :
  NoDup (map fst d1) -> d1 ≡ₚ d2 -> dict_get d1 key = dict_get d2 key.
Proof.
  intros N Hp.
  assert (N' : NoDup (map fst d2)).
  { rewrite <- Hp. exact N. }
  destruct (decide (key ∈ map fst d1)) as [Hin | Hout].
  - apply list_elem_of_fmap in Hin as ([k v] & -> & Hin). simpl.
    rewrite (dict_get_unique d1 k v N Hin).
    symmetry. apply dict_get_unique; [exact N' |]. rewrite <- Hp. exact Hin.
  - rewrite (dict_get_missing d1 key Hout). symmetry.
    apply dict_get_missing. rewrite <- Hp. exact Hout.
Qed.

Lemma dict_get_groupwise (d d' : list (pystr * list pystr)) key :
  Forall2 (fun g g' : pystr * list pystr =>
             fst g = fst g' /\ snd g ≡ₚ snd g') d d' ->
  map fst d = map fst d' /\ dict_get d key ≡ₚ dict_get d' key.
Proof.
  induction 1 as [| g g' d d' [Hk Hv] _ [IH1 IH2]]; [split; reflexivity |].
  split; [cbn [map]; congruence |].
  rewrite !dict_get_cons, <- Hk.
  destruct (decide (fst g = key)); assumption.
Qed.

(** X22.  The text of [entry_points.txt] depends on the dictionary of
    entry points only up to the order of its groups and up to the order
    of the entry points of each group: both are written in the order of
    [sorted]. *)
Theorem entry_points_of_same_entries P1 P2 :
  NoDup (map fst (entry_points P1)) ->
  same_entries (entry_points P1) (entry_points P2) ->
  _write_entry_points P1 = _write_entry_points P2.
Proof.
  intros N (d & Hp & HF). unfold _write_entry_points.
  assert (Hkeys : sorted (map fst (entry_points P1))
                  = sorted (map fst (entry_points P2))).
  { destruct (dict_get_groupwise d (entry_points P2) [] HF) as [<- _].
    apply sorted_permutation. symmetry. apply fmap_Permutation, Hp. }
  rewrite Hkeys. f_equal. apply map_ext. intros key.
  assert (Hget : sorted (dict_get (entry_points P1) key)
                 = sorted (dict_get (entry_points P2) key)).
  { rewrite (dict_get_permutation _ d key N (symmetry Hp)).
    apply sorted_permutation.
    exact (proj2 (dict_get_groupwise d (entry_points P2) key HF)). }
  rewrite Hget. reflexivity.
Qed.

Lemma metadata_file_of_alike_witness :
  _write_metadata_file listed_project = _write_metadata_file relisted_project.
Proof.
  apply (metadata_file_of_alike listed_project relisted_project).
  unfold alike, same_truth. cbn.
  repeat split; auto; apply perm_swap.
Defined.

Lemma entry_points_of_same_entries_witness :
  _write_entry_points listed_project = _write_entry_points relisted_project.
Proof.
  apply (entry_points_of_same_entries listed_project relisted_project).
  - apply (bool_decide_unpack _). vm_compute. exact I.
  - exists [(u "console_scripts", [u "my-cli = my_package.cli:main"]);
            (u "my.plugins", [u "b = my_package.b:B"; u "a = my_package.a:A"])].
    split; [apply perm_swap |].
    repeat constructor; apply perm_swap.
Defined.

Example sample_entry_points :
  _write_entry_points listed_project
  = unlines [u "[console_scripts]"; u "my-cli=my_package.cli:main"; [];
             u "[my.plugins]"; u "a=my_package.a:A"; u "b=my_package.b:B";
             []].
Proof. vm_compute. reflexivity. Qed.

(** * The recorded hashes *)

Lemma round_length st kw : length st = 8%nat -> length (SHA256.round st kw) = 8%nat.
Proof.
  intros H. do 9 (destruct st as [|? st]; try discriminate H). reflexivity.
Qed.

Lemma fold_round_length kws st :
  length st = 8%nat -> length (fold_left SHA256.round kws st) = 8%nat.
Proof.
  revert st. induction kws as [|kw r IH]; intros st H; simpl; [exact H |].
  apply IH, round_length, H.
Qed.

Lemma compress_length h block :
  length h = 8%nat -> length (SHA256.compress h block) = 8%nat.
Proof.
  intros H. unfold SHA256.compress. cbv zeta.
  rewrite length_map, length_combine, fold_round_length, H; [reflexivity | exact H].
Qed.

Lemma blocks_length fuel h bs :
  length h = 8%nat -> length (SHA256.blocks fuel h bs) = 8%nat.
Proof.
  revert h bs. induction fuel as [|f IH]; intros h bs H; simpl; [exact H |].
  destruct bs; [exact H |]. apply IH, compress_length, H.
Qed.

Lemma concat_be_bytes_length ws :
  length (concat (map (SHA256.be_bytes 4) ws)) = (4 * length ws)%nat.
Proof.
  induction ws as [|w r IH]; [reflexivity |].
  cbn [map concat]. rewrite length_app, IH. simpl. lia.
Qed.

Lemma sha256_length data : length (SHA256.sha256 data) = 32%nat.
Proof.
  unfold SHA256.sha256, SHA256.digest_words. cbv zeta.
  rewrite length_map, concat_be_bytes_length, blocks_length; reflexivity.
Qed.

Lemma rstrip_app_ch ch l : rstrip ch (l ++ [ch]) = rstrip ch l.
Proof.
  induction l as [|c r IH]; simpl.
  - rewrite N.eqb_refl. reflexivity.
  - rewrite IH. reflexivity.
Qed.

Lemma rstrip_without ch l : Forall (fun c => c <> ch) l -> rstrip ch l = l.
Proof.
  induction 1 as [|c r Hc _ IH]; simpl; [reflexivity |].
  rewrite IH. destruct r; [| reflexivity].
  apply N.eqb_neq in Hc. rewrite Hc. reflexivity.
Qed.

Lemma byte_to_N_lt b : Byte.to_N b < 256.
Proof. destruct b; vm_compute; reflexivity. Qed.

Lemma b64_char_alphabet i :
  i < 64 -> Byte.to_N (b64_char i) ∈ b64_alphabet.
Proof.
  intros H. unfold b64_char.
  assert (Hn : (N.to_nat i < 64)%nat) by lia.
  revert Hn. generalize (N.to_nat i). clear. intros n Hn.
  do 64 (destruct n as [|n];
         [apply (bool_decide_unpack _); vm_compute; exact I |]).
  lia.
Qed.

Lemma b64_index_bounds a b c :
  a < 256 -> b < 256 -> c < 256 ->
  a / 4 < 64 /\ (a mod 4) * 16 + b / 16 < 64 /\
  (b mod 16) * 4 + c / 64 < 64 /\ c mod 64 < 64 /\
  (a mod 4) * 16 < 64 /\ (b mod 16) * 4 < 64.
Proof.
  intros Ha Hb Hc.
  pose proof (N.mod_lt a 4). pose proof (N.mod_lt b 16).
  pose proof (N.mod_lt c 64).
  assert (a / 4 < 64) by (apply N.Div0.div_lt_upper_bound; lia).
  assert (b / 16 < 16) by (apply N.Div0.div_lt_upper_bound; lia).
  assert (c / 64 < 4) by (apply N.Div0.div_lt_upper_bound; lia).
  lia.
Qed.

Lemma b64_groups_three fuel a b c r :
  b64_groups (S fuel) (a :: b :: c :: r)
  = [b64_char (a / 4); b64_char ((a mod 4) * 16 + b / 16);
     b64_char ((b mod 16) * 4 + c / 64); b64_char (c mod 64)]
      ++ b64_groups fuel r.
Proof. reflexivity. Qed.

(** The encoding of [3 * q + 2] bytes: [4 * q + 3] symbols and one pad. *)
Lemma b64_groups_two_left q : forall fuel bs,
  length bs = (3 * q + 2)%nat -> (length bs < fuel)%nat ->
  Forall (fun b => b < 256) bs ->
  exists body,
    b64_groups fuel bs = body ++ [b64_pad] /\
    length body = (4 * q + 3)%nat /\ Forall (fun c => Byte.to_N c ∈ b64_alphabet) body.
Proof.
  induction q as [|q IH]; intros fuel bs Hl Hf Hb.
  - destruct bs as [|a [|b [|c r]]]; try discriminate Hl.
    destruct fuel as [|fuel]; [simpl in Hf; lia |].
    apply Forall_cons in Hb as [Ha Hb]. apply Forall_cons in Hb as [Hb _].
    exists [b64_char (a / 4); b64_char ((a mod 4) * 16 + b / 16);
            b64_char ((b mod 16) * 4)].
    split; [reflexivity |]. split; [reflexivity |].
    destruct (b64_index_bounds a b 0 Ha Hb) as (? & ? & _ & _ & _ & ?);
      [lia |].
    repeat (constructor; [apply b64_char_alphabet; assumption |]).
    constructor.
  - destruct bs as [|a [|b [|c r]]]; try (simpl in Hl; lia).
    destruct fuel as [|fuel]; [simpl in Hf; lia |].
    apply Forall_cons in Hb as [Ha Hb]. apply Forall_cons in Hb as [Hb Hc].
    apply Forall_cons in Hc as [Hc Hr].
    destruct (IH fuel r) as (body & E & L & F);
      [simpl in Hl; lia | simpl in Hf; lia | exact Hr |].
    rewrite b64_groups_three, E.
    eexists (_ :: _ :: _ :: _ :: body). split; [reflexivity |].
    split; [simpl; lia |].
    destruct (b64_index_bounds a b c Ha Hb Hc) as (? & ? & ? & ? & _).
    repeat (constructor; [apply b64_char_alphabet; assumption |]). exact F.
Qed.

Lemma b64_alphabet_no_pad : 61 ∉ b64_alphabet.
Proof. apply (bool_decide_unpack _). vm_compute. exact I. Qed.

Lemma record_hash_of_digest digest :
  length digest = 32%nat ->
  length (record_hash digest) = 43%nat /\
  Forall (fun c => c ∈ b64_alphabet) (record_hash digest).
Proof.
  intros H. unfold record_hash, urlsafe_b64encode.
  destruct (b64_groups_two_left 10 (S (length digest)) (map Byte.to_N digest))
    as (body & E & L & F).
  - rewrite length_map. exact H.
  - rewrite length_map. lia.
  - apply Forall_map, Forall_forall. intros b _. apply byte_to_N_lt.
  - rewrite E. unfold decode_ascii. rewrite map_app. cbn [map].
    replace (Byte.to_N b64_pad) with 61 by reflexivity.
    rewrite rstrip_app_ch, rstrip_without.
    + rewrite length_map. split; [exact L |].
      apply Forall_map. exact F.
    + apply Forall_map. eapply Forall_impl; [exact F |].
      intros c Hc Ec. apply b64_alphabet_no_pad. rewrite <- Ec. exact Hc.
Qed.


(** X23.  Every hash in the records of a builder is 43 characters of the
    URL-safe base64 alphabet: the digest has 32 bytes, its encoding ends
    in exactly one [=], and [rstrip] removes that one and nothing else. *)
Theorem recorded_hashes_unpadded os_sep s :
  reachable os_sep s ->
  Forall (fun r : record =>
            length (snd (fst r)) = 43%nat /\
            Forall (fun c => c ∈ b64_alphabet) (snd (fst r)) /\
            61 ∉ snd (fst r))
         (records s).
Proof.
  intros H. rewrite (reachable_consistent os_sep s H).
  apply Forall_map, Forall_forall. intros m _. simpl.
  destruct (record_hash_of_digest (SHA256.sha256 (snd m))
              (sha256_length (snd m))) as [L F].
  split; [exact L |]. split; [exact F |].
  intros Hin. rewrite Forall_forall in F.
  exact (b64_alphabet_no_pad (F _ Hin)).
Qed.

Lemma recorded_hashes_unpadded_witness :
  Forall (fun r : record =>
            length (snd (fst r)) = 43%nat /\
            Forall (fun c => c ∈ b64_alphabet) (snd (fst r)) /\
            61 ∉ snd (fst r))
         (records one_file_state).
Proof.
  apply (recorded_hashes_unpadded 47 one_file_state).
  eapply reach_add_file; [apply (reach_init 47 sample_state) |].
  apply run_Ok. vm_compute. reflexivity.
Defined.

(** * Rebuilding *)

Lemma core_inv s1 s2 :
  core s1 = core s2 ->
  src s1 = src s2 /\ wheel_zip s1 = wheel_zip s2 /\ records s1 = records s2.
Proof. unfold core. intros H. injection H as -> -> ->. auto. Qed.

Lemma agree_ret {A} (a : A) : agree (mret a) (mret a).
Proof.
  intros s1 s2 a1 a2 s1' s2' Hc H1 H2.
  injection H1 as <- <-. injection H2 as <- <-. auto.
Qed.

Lemma agree_raise_l {A} (e : exn) (m : M A) : agree (raise e) m.
Proof. intros s1 s2 a1 a2 s1' s2' _ H1. discriminate H1. Qed.

Lemma agree_raise_r {A} (e : exn) (m : M A) : agree m (raise e).
Proof. intros s1 s2 a1 a2 s1' s2' _ _ H2. discriminate H2. Qed.

Lemma agree_bind {A B} (m1 m2 : M A) (f1 f2 : A -> M B) :
  agree m1 m2 -> (forall a, agree (f1 a) (f2 a)) ->
  agree (m1 ≫= f1) (m2 ≫= f2).
Proof.
  intros Hm Hf s1 s2 b1 b2 s1' s2' Hc H1 H2.
  apply bind_Ok_inv in H1 as (a1 & t1 & E1 & H1).
  apply bind_Ok_inv in H2 as (a2 & t2 & E2 & H2).
  destruct (Hm _ _ _ _ _ _ Hc E1 E2) as [<- Hc'].
  exact (Hf a1 _ _ _ _ _ _ Hc' H1 H2).
Qed.

Lemma agree_get {A} (k1 k2 : state -> M A) :
  (forall x1 x2, core x1 = core x2 -> agree (k1 x1) (k2 x2)) ->
  agree (get ≫= k1) (get ≫= k2).
Proof.
  intros Hk s1 s2 a1 a2 s1' s2' Hc H1 H2.
  rewrite bind_run in H1, H2. unfold get in H1, H2.
  exact (Hk s1 s2 Hc _ _ _ _ _ _ Hc H1 H2).
Qed.

Lemma agree_modify (f1 f2 : state -> state) :
  (forall s1 s2, core s1 = core s2 -> core (f1 s1) = core (f2 s2)) ->
  agree (modify f1) (modify f2).
Proof.
  intros Hf s1 s2 [] [] s1' s2' Hc H1 H2.
  injection H1 as <-. injection H2 as <-. auto.
Qed.

Lemma agree_io_call : agree io_call io_call.
Proof.
  intros s1 s2 [] [] s1' s2' Hc H1 H2.
  apply io_call_run in H1 as [(A1 & _ & _ & _ & A2 & A3) _].
  apply io_call_run in H2 as [(B1 & _ & _ & _ & B2 & B3) _].
  split; [reflexivity |]. unfold core in *. congruence.
Qed.

Lemma agree_try_finally {A} (b1 b2 : M A) (f1 f2 : M unit) :
  agree b1 b2 -> agree f1 f2 ->
  agree (try_finally b1 f1) (try_finally b2 f2).
Proof.
  intros Hb Hf s1 s2 a1 a2 s1' s2' Hc H1 H2.
  unfold try_finally in H1, H2.
  destruct (b1 s1) as [r1 t1] eqn:E1. destruct (b2 s2) as [r2 t2] eqn:E2.
  destruct (f1 t1) as [[[]|?] t1'] eqn:F1; [| discriminate H1].
  destruct (f2 t2) as [[[]|?] t2'] eqn:F2; [| discriminate H2].
  injection H1 as -> <-. injection H2 as -> <-.
  destruct (Hb _ _ _ _ _ _ Hc E1 E2) as [<- Hc'].
  destruct (Hf _ _ _ _ _ _ Hc' F1 F2) as [_ Hc'']. auto.
Qed.

Lemma agree_for_each {A} (xs : list A) (f1 f2 : A -> M unit) :
  (forall x, agree (f1 x) (f2 x)) -> agree (for_each xs f1) (for_each xs f2).
Proof.
  intros Hf. induction xs as [|x r IH]; simpl.
  - apply agree_ret.
  - apply agree_bind; [apply Hf | intros _; exact IH].
Qed.

Lemma agree_hash_chunks fuel :
  forall hs f, agree (hash_chunks fuel hs f) (hash_chunks fuel hs f).
Proof.
  induction fuel as [|k IH]; intros hs f.
  - apply agree_raise_l.
  - rewrite hash_chunks_S. apply agree_bind.
    + unfold read_n. apply agree_bind; [apply agree_io_call |].
      intros _. apply agree_ret.
    + intros bf. destruct (fst bf); [apply agree_ret | apply IH].
Qed.

Ltac agree_step :=
  match goal with
  | |- agree (mbind _ get) (mbind _ get) =>
      apply agree_get;
      let x1 := fresh "x" in let x2 := fresh "y" in let Hc := fresh "Hc" in
      intros x1 x2 Hc; cbv beta zeta;
      let Hs := fresh "Hs" in let Hz := fresh "Hz" in let Hr := fresh "Hr" in
      destruct (core_inv x1 x2 Hc) as (Hs & Hz & Hr);
      rewrite ?Hs, ?Hz, ?Hr
  | |- agree (mbind _ _) (mbind _ _) => apply agree_bind; [| intros ?]
  | |- agree (mret _) (mret _) => apply agree_ret
  | |- agree (raise _) _ => apply agree_raise_l
  | |- agree io_call io_call => apply agree_io_call
  | |- agree (modify _) (modify _) =>
      apply agree_modify;
      let Hc := fresh "Hc" in
      intros ? ? Hc; apply core_inv in Hc as (? & ? & ?);
      unfold core; simpl; congruence
  | |- agree (try_finally _ _) (try_finally _ _) => apply agree_try_finally
  | |- agree (for_each _ _) (for_each _ _) => apply agree_for_each; intros ?
  | |- agree (hash_chunks _ _ _) (hash_chunks _ _ _) => apply agree_hash_chunks
  | |- agree (match ?x with _ => _ end) (match ?x with _ => _ end) => destruct x
  | |- agree (let _ := _ in _) _ => cbv zeta
  end.

Ltac agree_auto := repeat agree_step.

Lemma agree_build os_sep U v P :
  agree (build os_sep U v P) (build os_sep U v P).
Proof.
  unfold build, pipeline, writeln, _build, copy_module, write_metadata,
    write_record, _add_file, _write_to_zip, os_stat, open_rb, seek, read_all,
    writestr, append_record, zip_close.
  agree_auto.
Qed.

Section Rebuild.

Variable os_sep : N.
Variable U : Unicode.
Variable __version__ : pystr.
Variable P : Project.

(** What a successful [make_in] did: the build ran on a fresh builder
    over the sources, and its archive is at the final name. *)
Lemma make_in_Ok candidates s s' :
  wheel_filename U P ∉ candidates ->
  make_in os_sep U __version__ P candidates s = (Ok tt, s') ->
  exists b b',
    core b = (src s, fresh_archive, []) /\
    build os_sep U __version__ P b = (Ok tt, b') /\
    dist s' = <[wheel_filename U P :=
                  ZipImage (members (wheel_zip b')) true]> (dist s).
Proof.
  intros Hnot H. unfold make_in in H.
  apply bind_Ok_inv in H as (temp & s1 & Hmk & H).
  apply bind_Ok_inv in H as ([] & s2 & Hcl & H).
  assert (S1 : src s1 = src s).
  { assert (K : keeps src (mkstemp candidates))
      by (unfold mkstemp; keeps_auto).
    specialize (K s). rewrite Hmk in K. exact K. }
  apply mkstemp_Ok in Hmk as (Hin & Hfresh & D1).
  assert (Hne : temp <> wheel_filename U P) by (intros ->; contradiction).
  unfold os_close in Hcl. apply io_call_run in Hcl as [(S2 & D2 & _) _].
  rewrite D1 in D2. rewrite S1 in S2.
  unfold make_in_try, try_except_reraise in H.
  destruct (make_in_body os_sep U __version__ P temp s2) as [[[]|e] s3] eqn:Hb.
  2: { destruct (os_unlink temp s3) as [[[]|?] ?]; discriminate H. }
  injection H as <-.
  unfold make_in_body in Hb. cbv zeta in Hb.
  apply bind_Ok_inv in Hb as ([] & a1 & Ew & Hb).
  pose proof Ew as Ew'.
  apply with_open_build_run in Ew' as [Dw _].
  rewrite D2, insert_insert_eq in Dw.
  unfold with_open_build in Ew.
  apply bind_Ok_inv in Ew as ([] & o1 & Eo & Ew).
  assert (S3 : src o1 = src s).
  { assert (K : keeps src (open_wb temp)) by (unfold open_wb; keeps_auto).
    specialize (K s2). rewrite Eo in K. simpl in K. congruence. }
  unfold try_finally in Ew.
  destruct ((WheelBuilder_init;; build os_sep U __version__ P) o1)
    as [rb o2] eqn:Eb.
  destruct (fp_close temp o2) as [[[]|?] o3] eqn:Ec; [| discriminate Ew].
  injection Ew as -> <-.
  apply fp_close_run in Ec as [Zc _].
  apply bind_Ok_inv in Eb as ([] & b & Ei & Eb).
  unfold WheelBuilder_init, modify in Ei. injection Ei as <-.
  eexists _, o2. split; [| split; [exact Eb |]].
  { unfold core. simpl. rewrite S3. reflexivity. }
  rewrite <- Zc.
  apply bind_Ok_inv in Hb as (ex & a2 & Ee & Hb).
  apply path_exists_run in Ee as (De & Ze & _).
  apply bind_Ok_inv in Hb as ([] & a3 & Eu & Hb).
  apply os_rename_run in Hb as [Zr (c & Lc & Dr)].
  assert (Da : dist a3 = dist a2 \/
               dist a3 = delete (wheel_filename U P) (dist a2)).
  { destruct ex.
    - apply os_unlink_run in Eu as [_ Du]. auto.
    - injection Eu as <-. auto. }
  assert (Lt : dist a3 !! temp
               = Some (ZipImage (members (wheel_zip o3)) true)).
  { destruct Da as [-> | ->]; rewrite ?lookup_delete_ne by
      (intros E; apply Hne; symmetry; exact E);
      rewrite De, Dw; apply lookup_insert_eq. }
  rewrite Lt in Lc. injection Lc as <-. rewrite Dr.
  apply map_eq. intros k.
  destruct (decide (k = wheel_filename U P)) as [-> | Hk].
  - rewrite !lookup_insert_eq. reflexivity.
  - rewrite !lookup_insert_ne by (intros E; apply Hk; symmetry; exact E).
    destruct (decide (k = temp)) as [-> | Hkt].
    + rewrite lookup_delete_eq. symmetry. exact Hfresh.
    + rewrite lookup_delete_ne by (intros E; apply Hkt; symmetry; exact E).
      destruct Da as [-> | ->];
        rewrite ?lookup_delete_ne by
          (intros E; apply Hk; symmetry; exact E);
        rewrite De, Dw;
        apply lookup_insert_ne; intros E; apply Hkt; symmetry; exact E.
Qed.

(** X24.  The successful outcome of a build is determined by the
    sources, the archive and the records it starts with: two builds that
    succeed from states which agree on these leave the same archive, the
    same records and the same sources, whatever the target directory,
    the console, the clock and the failures still pending in the
    environment are. *)
Theorem build_determined s1 s2 s1' s2' :
  src s1 = src s2 -> wheel_zip s1 = wheel_zip s2 -> records s1 = records s2 ->
  build os_sep U __version__ P s1 = (Ok tt, s1') ->
  build os_sep U __version__ P s2 = (Ok tt, s2') ->
  src s1' = src s2' /\ wheel_zip s1' = wheel_zip s2' /\
  records s1' = records s2'.
Proof.
  intros Hs Hz Hr H1 H2.
  apply core_inv.
  refine (proj2 (agree_build os_sep U __version__ P s1 s2 tt tt s1' s2'
                   _ H1 H2)).
  unfold core. congruence.
Qed.

(** X25.  Publishing twice gives the exact same result: when [make_in]
    has succeeded and succeeds again, later, on the same sources and on
    the target directory as the first run left it, whatever temporary
    name, clock and console the second run has, then the target
    directory is as the first run left it: the archive at the final name
    was replaced by an equal one. *)
Theorem make_in_twice c1 c2 s s1 s' s2 :
  wheel_filename U P ∉ c1 -> wheel_filename U P ∉ c2 ->
  make_in os_sep U __version__ P c1 s = (Ok tt, s1) ->
  src s' = src s -> dist s' = dist s1 ->
  make_in os_sep U __version__ P c2 s' = (Ok tt, s2) ->
  dist s2 = dist s1.
Proof.
  intros N1 N2 H1 Hs Hd H2.
  apply (make_in_Ok _ _ _ N1) in H1 as (b1 & b1' & C1 & B1 & D1).
  apply (make_in_Ok _ _ _ N2) in H2 as (b2 & b2' & C2 & B2 & D2).
  assert (Hc : core b1 = core b2) by (rewrite C1, C2, Hs; reflexivity).
  destruct (agree_build os_sep U __version__ P _ _ _ _ _ _ Hc B1 B2)
    as [_ Hc'].
  apply core_inv in Hc' as (_ & Hz & _).
  rewrite D2, Hd, D1, Hz. apply insert_insert_eq.
Qed.

End Rebuild.

Lemma build_determined_witness :
  let run s := snd (build 47 ascii_only sample_version sample_project s) in
  src (run fresh_builder) = src (run later_builder) /\
  wheel_zip (run fresh_builder) = wheel_zip (run later_builder) /\
  records (run fresh_builder) = records (run later_builder).
Proof.
  apply (build_determined 47 ascii_only sample_version sample_project
           fresh_builder later_builder).
  - vm_compute. reflexivity.
  - vm_compute. reflexivity.
  - vm_compute. reflexivity.
  - apply run_Ok. vm_compute. reflexivity.
  - apply run_Ok. vm_compute. reflexivity.
Defined.

Lemma make_in_twice_witness :
  dist (snd (make_in 47 ascii_only sample_version sample_project
               [u "tmpzz99yy88.whl"] published_later))
  = dist (snd (make_in 47 ascii_only sample_version sample_project
                 sample_candidates sample_state)).
Proof.
  apply (make_in_twice 47 ascii_only sample_version sample_project
           sample_candidates [u "tmpzz99yy88.whl"] sample_state
           (snd (make_in 47 ascii_only sample_version sample_project
                   sample_candidates sample_state))
           published_later
           (snd (make_in 47 ascii_only sample_version sample_project
               [u "tmpzz99yy88.whl"] published_later))).
  - apply (bool_decide_unpack _). vm_compute. exact I.
  - apply (bool_decide_unpack _). vm_compute. exact I.
  - apply run_Ok. vm_compute. reflexivity.
  - vm_compute. reflexivity.
  - vm_compute. reflexivity.
  - apply run_Ok. vm_compute. reflexivity.
Defined.
